(** * Durability and recovery layer of the editor shell

    A shallow embedding of [src/services/reliabilityService.ts] and
    [src/services/performanceService.ts]: the versioned backup store with
    its retention policy, the crash flag, crash recovery, the auto-backup
    timer, the TTL cache, and the sync loop with its local fallback.

    The browser is modelled as an explicit [World] (wall clock,
    [localStorage], the IndexedDB object stores, the interval timers, the
    network) whose answers to the program come from schedules the statements
    quantify over.  The pieces of the platform that are pure functions
    ([crypto.subtle.digest], [JSON.stringify], [JSON.parse]) are an
    interface, [Platform]: the general statements hold for every platform,
    and one concrete instance, with SHA-256 and a JSON reader and writer,
    serves the statements at concrete stores.

    Numbers are integers (times are in milliseconds).  A method runs to
    completion: what other events do while it awaits is not modelled, and a
    promise that is never settled is the outcome [Pending]. *)

From Stdlib Require Import ZArith List Ascii String Lia Bool.
From stdpp Require Import base option list gmap strings pretty sorting.

Local Open Scope string_scope.
Local Open Scope Z_scope.

#[local] Set Warnings "-register-all".

(** ** SHA-256 and lower-case hex, as [crypto.subtle.digest('SHA-256', _)]
       followed by [b.toString(16).padStart(2, '0')] compute them.

    A JavaScript string is carried as the byte string of its UTF-8
    encoding, so [TextEncoder.encode] is the list of its bytes. *)
Module Sha256.

Definition w32 (x : Z) : Z := x mod 4294967296.
Definition add32 (x y : Z) : Z := w32 (x + y).
Definition rotr (n x : Z) : Z := Z.lor (Z.shiftr x n) (w32 (Z.shiftl x (32 - n))).
Definition not32 (x : Z) : Z := 4294967295 - x.

Definition Ch (x y z : Z) : Z := Z.lxor (Z.land x y) (Z.land (not32 x) z).
Definition Maj (x y z : Z) : Z :=
  Z.lxor (Z.lxor (Z.land x y) (Z.land x z)) (Z.land y z).
Definition Sigma0 (x : Z) : Z := Z.lxor (Z.lxor (rotr 2 x) (rotr 13 x)) (rotr 22 x).
Definition Sigma1 (x : Z) : Z := Z.lxor (Z.lxor (rotr 6 x) (rotr 11 x)) (rotr 25 x).
Definition sigma0 (x : Z) : Z := Z.lxor (Z.lxor (rotr 7 x) (rotr 18 x)) (Z.shiftr x 3).
Definition sigma1 (x : Z) : Z := Z.lxor (Z.lxor (rotr 17 x) (rotr 19 x)) (Z.shiftr x 10).

Definition K : list Z :=
  [ 1116352408; 1899447441; 3049323471; 3921009573; 961987163; 1508970993; 2453635748; 2870763221;
    3624381080; 310598401; 607225278; 1426881987; 1925078388; 2162078206; 2614888103; 3248222580;
    3835390401; 4022224774; 264347078; 604807628; 770255983; 1249150122; 1555081692; 1996064986;
    2554220882; 2821834349; 2952996808; 3210313671; 3336571891; 3584528711; 113926993; 338241895;
    666307205; 773529912; 1294757372; 1396182291; 1695183700; 1986661051; 2177026350; 2456956037;
    2730485921; 2820302411; 3259730800; 3345764771; 3516065817; 3600352804; 4094571909; 275423344;
    430227734; 506948616; 659060556; 883997877; 958139571; 1322822218; 1537002063; 1747873779;
    1955562222; 2024104815; 2227730452; 2361852424; 2428436474; 2756734187; 3204031479; 3329325298 ]%Z.

Definition H0 : list Z :=
  [ 1779033703; 3144134277; 1013904242; 2773480762;
    1359893119; 2600822924; 528734635; 1541459225 ]%Z.

Definition bytes_of_string (s : string) : list Z :=
  map (fun c => Z.of_N (N_of_ascii c)) (list_ascii_of_string s).

(** The message, a 1 bit, zeros up to 56 mod 64, the bit length on 8 bytes. *)
Definition be_bytes (n : nat) (x : Z) : list Z :=
  map (fun i => Z.shiftr x (8 * Z.of_nat i) mod 256) (rev (seq 0 n)).

Definition pad (msg : list Z) : list Z :=
  let len := Z.of_nat (length msg) in
  let zeros := Z.to_nat ((55 - len) mod 64) in
  (msg ++ 128 :: repeat 0 zeros ++ be_bytes 8 (8 * len))%list.

Fixpoint words (fuel : nat) (bs : list Z) : list Z :=
  match fuel, bs with
  | S f, b0 :: b1 :: b2 :: b3 :: rest =>
      (Z.shiftl b0 24 + Z.shiftl b1 16 + Z.shiftl b2 8 + b3) :: words f rest
  | _, _ => []
  end.

Definition nthZ (l : list Z) (i : nat) : Z := nth i l 0.

(** The message schedule: W(t) for t from 16, appended to the 16 block words. *)
Fixpoint schedule (n : nat) (w : list Z) : list Z :=
  match n with
  | O => w
  | S n' =>
      let t := length w in
      let x := add32 (add32 (sigma1 (nthZ w (t - 2))) (nthZ w (t - 7)))
                     (add32 (sigma0 (nthZ w (t - 15))) (nthZ w (t - 16))) in
      schedule n' (w ++ [x])
  end.

Record regs := Regs { ra : Z; rb : Z; rc : Z; rd : Z; re : Z; rf : Z; rg : Z; rh : Z }.

Definition round (r : regs) (kw : Z * Z) : regs :=
  let t1 := add32 (add32 (add32 (rh r) (Sigma1 (re r))) (Ch (re r) (rf r) (rg r)))
                  (add32 (fst kw) (snd kw)) in
  let t2 := add32 (Sigma0 (ra r)) (Maj (ra r) (rb r) (rc r)) in
  Regs (add32 t1 t2) (ra r) (rb r) (rc r) (add32 (rd r) t1) (re r) (rf r) (rg r).

Definition regs_of (h : list Z) : regs :=
  Regs (nthZ h 0) (nthZ h 1) (nthZ h 2) (nthZ h 3)
       (nthZ h 4) (nthZ h 5) (nthZ h 6) (nthZ h 7).

Definition compress (h : list Z) (block : list Z) : list Z :=
  let w := schedule 48 block in
  let r := fold_left round (combine K w) (regs_of h) in
  [ add32 (nthZ h 0) (ra r); add32 (nthZ h 1) (rb r);
    add32 (nthZ h 2) (rc r); add32 (nthZ h 3) (rd r);
    add32 (nthZ h 4) (re r); add32 (nthZ h 5) (rf r);
    add32 (nthZ h 6) (rg r); add32 (nthZ h 7) (rh r) ].

Fixpoint blocks (fuel : nat) (h : list Z) (ws : list Z) : list Z :=
  match fuel with
  | O => h
  | S f =>
      match ws with
      | [] => h
      | _ => blocks f (compress h (firstn 16 ws)) (skipn 16 ws)
      end
  end.

Definition digest (msg : list Z) : list Z :=
  let ws := words (length (pad msg)) (pad msg) in
  flat_map (be_bytes 4) (blocks (length ws) H0 ws).

Definition hex_digit (d : Z) : ascii :=
  if d <? 10 then ascii_of_N (Z.to_N (48 + d)) else ascii_of_N (Z.to_N (87 + d)).

Definition hex_byte (b : Z) : string :=
  String (hex_digit (b / 16)) (String (hex_digit (b mod 16)) EmptyString).

Definition hex (bs : list Z) : string := String.concat "" (map hex_byte bs).

Definition sha256_hex (s : string) : string := hex (digest (bytes_of_string s)).

End Sha256.

(** ** JavaScript values and JSON

    The values that flow through [JSON.stringify] and [JSON.parse]: the
    JSON-representable fragment of [any], numbers being integers.  An object
    lists its properties in the engine's property order. *)
Inductive JsValue : Type :=
  | JNull
  | JBool (b : bool)
  | JNum (n : Z)
  | JStr (s : string)
  | JArr (items : list JsValue)
  | JObj (props : list (string * JsValue)).

Module Json.

Definition dquote : ascii := ascii_of_N 34.
Definition backslash : ascii := ascii_of_N 92.
Definition code (c : ascii) : Z := Z.of_N (N_of_ascii c).
Definition chr (n : Z) : ascii := ascii_of_N (Z.to_N n).
Definition str1 (c : ascii) : string := String c EmptyString.

(** [QuoteJSONString]: the two-character escapes, [\u00xx] for the other
    control characters, every other byte as it is. *)
Definition escape_char (c : ascii) : string :=
  let n := code c in
  if n =? 34 then String backslash (str1 dquote)
  else if n =? 92 then String backslash (str1 backslash)
  else if n =? 8 then String backslash "b"
  else if n =? 12 then String backslash "f"
  else if n =? 10 then String backslash "n"
  else if n =? 13 then String backslash "r"
  else if n =? 9 then String backslash "t"
  else if n <? 32 then String backslash ("u00" +:+ Sha256.hex_byte n)
  else str1 c.

Fixpoint escape (s : string) : string :=
  match s with
  | EmptyString => EmptyString
  | String c rest => escape_char c +:+ escape rest
  end.

Definition quote (s : string) : string := str1 dquote +:+ escape s +:+ str1 dquote.

Fixpoint stringify (v : JsValue) : string :=
  match v with
  | JNull => "null"
  | JBool true => "true"
  | JBool false => "false"
  | JNum n => pretty n
  | JStr s => quote s
  | JArr items => "[" +:+ String.concat "," (map stringify items) +:+ "]"
  | JObj props =>
      "{" +:+ String.concat ","
                (map (fun kv => quote (fst kv) +:+ ":" +:+ stringify (snd kv)) props)
          +:+ "}"
  end.

(** *** Parsing *)

Definition is_ws (c : ascii) : bool :=
  let n := code c in (n =? 32) || (n =? 9) || (n =? 10) || (n =? 13).

Fixpoint skip_ws (cs : list ascii) : list ascii :=
  match cs with
  | c :: rest => if is_ws c then skip_ws rest else cs
  | [] => []
  end.

Definition is_digit (c : ascii) : bool := (48 <=? code c) && (code c <=? 57).

Definition hex_val (c : ascii) : option Z :=
  let n := code c in
  if (48 <=? n) && (n <=? 57) then Some (n - 48)
  else if (97 <=? n) && (n <=? 102) then Some (n - 87)
  else if (65 <=? n) && (n <=? 70) then Some (n - 55)
  else None.

(** The UTF-8 bytes of a code point of the Basic Multilingual Plane that is
    not a surrogate; [None] for a surrogate. *)
Definition utf8 (cp : Z) : option (list ascii) :=
  if cp <? 128 then Some [chr cp]
  else if cp <? 2048 then Some [chr (192 + cp / 64); chr (128 + cp mod 64)]
  else if (55296 <=? cp) && (cp <=? 57343) then None
  else Some [chr (224 + cp / 4096); chr (128 + (cp / 64) mod 64); chr (128 + cp mod 64)].

Definition unescape (c : ascii) : option ascii :=
  let n := code c in
  if n =? 34 then Some dquote
  else if n =? 92 then Some backslash
  else if n =? 47 then Some c
  else if n =? 98 then Some (chr 8)
  else if n =? 102 then Some (chr 12)
  else if n =? 110 then Some (chr 10)
  else if n =? 114 then Some (chr 13)
  else if n =? 116 then Some (chr 9)
  else None.

(** The characters of a string literal after its opening quote, up to and
    with the closing quote. *)
Fixpoint parse_chars (fuel : nat) (cs : list ascii) (acc : list ascii)
  : option (string * list ascii) :=
  match fuel with
  | O => None
  | S f =>
      match cs with
      | [] => None
      | c :: rest =>
          if code c =? 34 then Some (string_of_list_ascii (rev acc), rest)
          else if code c <? 32 then None
          else if code c =? 92 then
            match rest with
            | e :: rest' =>
                if code e =? 117 then
                  match rest' with
                  | h1 :: h2 :: h3 :: h4 :: rest'' =>
                      match hex_val h1, hex_val h2, hex_val h3, hex_val h4 with
                      | Some a, Some b, Some c', Some d =>
                          match utf8 (4096 * a + 256 * b + 16 * c' + d) with
                          | Some bytes => parse_chars f rest'' (rev bytes ++ acc)
                          | None => None
                          end
                      | _, _, _, _ => None
                      end
                  | _ => None
                  end
                else
                  match unescape e with
                  | Some x => parse_chars f rest' (x :: acc)
                  | None => None
                  end
            | [] => None
            end
          else parse_chars f rest (c :: acc)
      end
  end.

Fixpoint parse_digits (cs : list ascii) (acc : Z) : Z * list ascii :=
  match cs with
  | c :: rest => if is_digit c then parse_digits rest (10 * acc + (code c - 48)) else (acc, cs)
  | [] => (acc, [])
  end.

(** An integer literal: no leading zero, no fraction and no exponent (a
    literal with one is outside the fragment and is refused). *)
Definition parse_int (cs : list ascii) : option (Z * list ascii) :=
  match cs with
  | c :: rest =>
      if is_digit c then
        let '(n, rest') :=
          if code c =? 48 then (0, rest) else parse_digits cs 0 in
        match rest' with
        | d :: _ =>
            if is_digit d || (code d =? 46) || (code d =? 101) || (code d =? 69)
            then None else Some (n, rest')
        | [] => Some (n, rest')
        end
      else None
  | [] => None
  end.

Fixpoint expect (lit : list ascii) (cs : list ascii) : option (list ascii) :=
  match lit, cs with
  | [], _ => Some cs
  | l :: lit', c :: cs' => if Ascii.eqb l c then expect lit' cs' else None
  | _ :: _, [] => None
  end.

Fixpoint parse_value (fuel : nat) (cs : list ascii) {struct fuel}
  : option (JsValue * list ascii) :=
  match fuel with
  | O => None
  | S f =>
      match skip_ws cs with
      | [] => None
      | c :: rest =>
          let n := code c in
          if n =? 110 then v ← expect (list_ascii_of_string "ull") rest; Some (JNull, v)
          else if n =? 116 then v ← expect (list_ascii_of_string "rue") rest; Some (JBool true, v)
          else if n =? 102 then v ← expect (list_ascii_of_string "alse") rest; Some (JBool false, v)
          else if n =? 34 then
            '(s, rest') ← parse_chars (S (length rest)) rest []; Some (JStr s, rest')
          else if n =? 45 then
            '(k, rest') ← parse_int rest; Some (JNum (- k), rest')
          else if is_digit c then
            '(k, rest') ← parse_int (c :: rest); Some (JNum k, rest')
          else if n =? 91 then
            match skip_ws rest with
            | d :: rest' =>
                if code d =? 93 then Some (JArr [], rest')
                else '(items, rest'') ← parse_items f (d :: rest'); Some (JArr items, rest'')
            | [] => None
            end
          else if n =? 123 then
            match skip_ws rest with
            | d :: rest' =>
                if code d =? 125 then Some (JObj [], rest')
                else '(props, rest'') ← parse_props f (d :: rest'); Some (JObj props, rest'')
            | [] => None
            end
          else None
      end
  end
with parse_items (fuel : nat) (cs : list ascii) {struct fuel}
  : option (list JsValue * list ascii) :=
  match fuel with
  | O => None
  | S f =>
      '(v, rest) ← parse_value f cs;
      match skip_ws rest with
      | d :: rest' =>
          if code d =? 93 then Some ([v], rest')
          else if code d =? 44 then
            '(vs, rest'') ← parse_items f rest'; Some (v :: vs, rest'')
          else None
      | [] => None
      end
  end
with parse_props (fuel : nat) (cs : list ascii) {struct fuel}
  : option (list (string * JsValue) * list ascii) :=
  match fuel with
  | O => None
  | S f =>
      match skip_ws cs with
      | q :: rest =>
          if code q =? 34 then
            '(k, rest1) ← parse_chars (S (length rest)) rest [];
            match skip_ws rest1 with
            | col :: rest2 =>
                if code col =? 58 then
                  '(v, rest3) ← parse_value f rest2;
                  match skip_ws rest3 with
                  | d :: rest4 =>
                      if code d =? 125 then Some ([(k, v)], rest4)
                      else if code d =? 44 then
                        '(kvs, rest5) ← parse_props f rest4; Some ((k, v) :: kvs, rest5)
                      else None
                  | [] => None
                  end
                else None
            | [] => None
            end
          else None
      | [] => None
      end
  end.

(** [JSON.parse]: one value between optional white space; [None] is the
    [SyntaxError]. *)
Definition parse (s : string) : option JsValue :=
  let cs := list_ascii_of_string s in
  '(v, rest) ← parse_value (S (length cs)) cs;
  match skip_ws rest with
  | [] => Some v
  | _ :: _ => None
  end.

End Json.

(** ** The platform's pure functions *)
Class Platform := {
  (** [crypto.subtle.digest('SHA-256', bytes)], bytes to bytes. *)
  crypto_subtle_digest : list Z → list Z;
  (** [JSON.stringify], on the values above. *)
  JSON_stringify : JsValue → string;
  (** [JSON.parse]; [None] when it throws a [SyntaxError]. *)
  JSON_parse : string → option JsValue
}.

(** The concrete platform.  Its [JSON.parse] reads the fragment above:
    on a number with a fraction or an exponent, or an escaped surrogate, it
    refuses where the browser's would not. *)
Definition browser : Platform := {|
  crypto_subtle_digest := Sha256.digest;
  JSON_stringify := Json.stringify;
  JSON_parse := Json.parse
|}.

(** ** Exceptions, promise outcomes, and the monad of the code

    A computation runs on a state and ends in a value, in a thrown
    exception (a rejected promise), or never: [Pending] is a promise that no
    handler ever settles.  The writes made before a throw stay. *)
Inductive JsError : Type :=
  | StorageError          (** the error of an IndexedDB request or transaction *)
  | QuotaExceededError    (** [localStorage.setItem] on a full store *)
  | TypeError             (** a property read on [undefined] *)
  | SyntaxError           (** [JSON.parse] *)
  | ValidationError       (** [Error('Recovered data validation failed')] *)
  | CallbackError         (** whatever the caller's snapshot producer throws *)
  | NetworkError          (** [fetch] rejecting *)
  | SyncFailed (status : Z) (** [Error(`Sync failed: ${response.status}`)] *)
  | RangeError.           (** [toISOString] on an invalid date *)

Inductive Result (A : Type) : Type :=
  | Ok (a : A)
  | Throw (e : JsError)
  | Pending.
Arguments Ok {A} a.
Arguments Throw {A} e.
Arguments Pending {A}.

Definition M (S A : Type) : Type := S → Result A * S.

#[global] Instance M_ret {S} : MRet (M S) := λ A a s, (Ok a, s).
#[global] Instance M_bind {S} : MBind (M S) := λ A B f m s,
  match m s with
  | (Ok a, s') => f a s'
  | (Throw e, s') => (Throw e, s')
  | (Pending, s') => (Pending, s')
  end.

Definition throw {S A} (e : JsError) : M S A := λ s, (Throw e, s).
Definition pending {S A} : M S A := λ s, (Pending, s).

(** [try { m } catch (e) { h e }] *)
Definition try_catch {S A} (m : M S A) (h : JsError → M S A) : M S A := λ s,
  match m s with
  | (Throw e, s') => h e s'
  | r => r
  end.

(** A call that has ended in [r] already. *)
Definition settle {S A} (r : Result A) : M S A := λ s, (r, s).

(** A promise that is started and not awaited: its effects happen, its
    outcome is dropped. *)
Definition detached {S A} (m : M S A) : M S unit := λ s, (Ok tt, snd (m s)).

(** [for (const x of xs) { await f x }] *)
Fixpoint for_of {S A} (xs : list A) (f : A → M S unit) : M S unit :=
  match xs with
  | [] => mret tt
  | x :: rest => f x ;; for_of rest f
  end.

(** ** Arrays *)

(** [Array.prototype.sort(cmp)]: stable, [x] stays before [y] when
    [cmp x y <= 0]. *)
Fixpoint sort_insert {A} (cmp : A → A → Z) (x : A) (l : list A) : list A :=
  match l with
  | [] => [x]
  | y :: l' => if cmp x y <=? 0 then x :: l else y :: sort_insert cmp x l'
  end.

Definition Array_sort {A} (cmp : A → A → Z) (l : list A) : list A :=
  foldr (sort_insert cmp) [] l.

(** [Array.prototype.slice(start)]: a negative [start] counts from the end. *)
Definition Array_slice {A} (start : Z) (l : list A) : list A :=
  let len := Z.of_nat (length l) in
  let k := if start <? 0 then Z.max (len + start) 0 else Z.min start len in
  drop (Z.to_nat k) l.

(** ** The data of the two services *)

Record BackupData := mkBackupData {
  id : string;
  content : string;
  timestamp : Z;
  version : Z;
  checksum : string
}.

Record RecoveryState := mkRecoveryState {
  lastSaved : Z;
  unsavedChanges : bool;
  backupCount : Z;
  crashDetected : bool
}.

(** What the object store [backups] keeps under a key: the store has
    [keyPath: 'id'], so a record sits under its own [id] and the map from
    keys to the other four fields is the whole store. *)
Record BackupRow := mkBackupRow {
  row_content : string;
  row_timestamp : Z;
  row_version : Z;
  row_checksum : string
}.

#[global] Instance BackupData_eq_dec : EqDecision BackupData.
Proof. solve_decision. Defined.
#[global] Instance BackupRow_eq_dec : EqDecision BackupRow.
Proof. solve_decision. Defined.

Definition row_of (b : BackupData) : BackupRow :=
  mkBackupRow (content b) (timestamp b) (version b) (checksum b).
Definition record_of (kv : string * BackupRow) : BackupData :=
  mkBackupData (fst kv) (row_content (snd kv)) (row_timestamp (snd kv))
               (row_version (snd kv)) (row_checksum (snd kv)).

(** A record of the object store [files] of [CodeBuddyDB]. *)
Record FileRow := mkFileRow {
  file_content : string;
  file_timestamp : Z;
  file_synced : bool
}.

(** ** The browser *)

(** How one IndexedDB operation ends: the [open] request fails, or the
    request (or its transaction) fails, or it succeeds. *)
Inductive IdbOutcome : Type := IdbOk | IdbOpenError | IdbRequestError.

(** The database [CodeBuddyBackups].  [indexedDB.open(name, 1)] on a
    database that does not exist creates it, at version 1, with the object
    stores that the [onupgradeneeded] handler of that request creates: with
    no handler, none.  Once the database is at version 1 no later
    [open(name, 1)] upgrades it. *)
Inductive Database : Type :=
  | NoDatabase
  | NoObjectStore
  | ObjectStore (rows : gmap string BackupRow).

#[global] Instance Database_eq_dec : EqDecision Database.
Proof. solve_decision. Defined.

(** How one [fetch] ends, [elapsed] milliseconds later. *)
Inductive FetchOutcome : Type :=
  | FetchRejects (elapsed : Z)
  | FetchResponse (status : Z) (elapsed : Z).

(** The callbacks [setInterval] holds: the auto-backup tick of the
    reliability service, or anything else on the page. *)
Inductive TimerCallback : Type := AutoBackupTick | OtherCallback.

Record World := mkWorld {
  now : Z;                               (** the wall clock, in milliseconds *)
  clock : list Z;                        (** by how much it moves before each reading *)
  localStorage : gmap string string;
  quota : list bool;                     (** which [setItem] calls find the store full *)
  database : Database;                   (** [CodeBuddyBackups] *)
  files : gmap string FileRow;           (** [CodeBuddyDB], store [files] *)
  idb : list IdbOutcome;                 (** how the next IndexedDB operations end *)
  put_log : list BackupData;             (** ghost: every snapshot written, newest first *)
  net : list FetchOutcome;               (** how the next [fetch] calls end *)
  onLine : bool;                         (** [navigator.onLine] *)
  timers : gmap positive (TimerCallback * Z);  (** the active interval timers *)
  next_timer : positive;                 (** the next timer id *)
  sleeps : list Z                        (** ghost: every [setTimeout] delay awaited, newest first *)
}.

(** The records of the object store [backups]: none when there is no such
    store. *)
Definition backups (w : World) : gmap string BackupRow :=
  match database w with
  | ObjectStore rows => rows
  | NoDatabase | NoObjectStore => ∅
  end.

Definition read_world : M World World := λ w, (Ok w, w).

Definition Date_now : M World Z := λ w,
  let t := now w + hd 0 (clock w) in
  (Ok t, mkWorld t (tl (clock w)) (localStorage w) (quota w) (database w) (files w)
                 (idb w) (put_log w) (net w) (onLine w) (timers w) (next_timer w) (sleeps w)).

(** [performance.now()], read off the same clock. *)
Definition performance_now : M World Z := λ w, (Ok (now w), w).

(** [await new Promise(resolve => setTimeout(resolve, ms))] *)
Definition setTimeout_await (ms : Z) : M World unit := λ w,
  (Ok tt, mkWorld (now w + Z.max 0 ms) (clock w) (localStorage w) (quota w) (database w)
                  (files w) (idb w) (put_log w) (net w) (onLine w) (timers w)
                  (next_timer w) (ms :: sleeps w)).

Definition localStorage_getItem (k : string) : M World (option string) := λ w,
  (Ok (localStorage w !! k), w).

Definition localStorage_setItem (k v : string) : M World unit := λ w,
  let w' ls := mkWorld (now w) (clock w) ls (tl (quota w)) (database w) (files w)
                       (idb w) (put_log w) (net w) (onLine w) (timers w) (next_timer w)
                       (sleeps w) in
  if hd false (quota w) then (Throw QuotaExceededError, w' (localStorage w))
  else (Ok tt, w' (<[k := v]> (localStorage w))).

Definition localStorage_removeItem (k : string) : M World unit := λ w,
  (Ok tt, mkWorld (now w) (clock w) (delete k (localStorage w)) (quota w) (database w)
                  (files w) (idb w) (put_log w) (net w) (onLine w) (timers w)
                  (next_timer w) (sleeps w)).

(** One IndexedDB operation reads how it ends off the schedule; a
    successful one then leaves the database, the store [files] and the
    write log as [db], [fs] and [log]. *)
Definition idb_next : M World IdbOutcome := λ w,
  (Ok (hd IdbOk (idb w)),
   mkWorld (now w) (clock w) (localStorage w) (quota w) (database w) (files w)
           (tl (idb w)) (put_log w) (net w) (onLine w) (timers w) (next_timer w) (sleeps w)).

Definition idb_write (db : Database) (fs : gmap string FileRow)
    (log : list BackupData) : M World unit := λ w,
  (Ok tt, mkWorld (now w) (clock w) (localStorage w) (quota w) db fs
                  (idb w) log (net w) (onLine w) (timers w) (next_timer w) (sleeps w)).

(** The [open] request of [CodeBuddyBackups] has succeeded: the records of
    the object store [backups] of the database it hands to [onsuccess], or
    [None] when that database has no such store.  [upgrade] says whether the
    request has the [onupgradeneeded] handler that creates the store; it
    runs only when the database did not exist. *)
Definition open_database (upgrade : bool)
  : M World (option (gmap string BackupRow)) := λ w,
  let w' db := mkWorld (now w) (clock w) (localStorage w) (quota w) db (files w)
                       (idb w) (put_log w) (net w) (onLine w) (timers w) (next_timer w)
                       (sleeps w) in
  match database w with
  | NoDatabase =>
      if upgrade then (Ok (Some ∅), w' (ObjectStore ∅)) else (Ok None, w' NoObjectStore)
  | NoObjectStore => (Ok None, w)
  | ObjectStore rows => (Ok (Some rows), w)
  end.

Definition fetch_sync : M World Z := λ w,
  let w' dt := mkWorld (now w + Z.max 0 dt) (clock w) (localStorage w) (quota w) (database w)
                       (files w) (idb w) (put_log w) (tl (net w)) (onLine w) (timers w)
                       (next_timer w) (sleeps w) in
  match hd (FetchRejects 0) (net w) with
  | FetchRejects dt => (Throw NetworkError, w' dt)
  | FetchResponse status dt => (Ok status, w' dt)
  end.

(** A timer id is a positive integer that is not in the map of active
    timers: the browser's counter, or a fresh one when that one is taken. *)
Definition fresh_timer (w : World) : positive :=
  if decide (timers w !! next_timer w = None) then next_timer w
  else fresh (dom (timers w)).

Definition setInterval (cb : TimerCallback) (ms : Z) : M World positive := λ w,
  let t := fresh_timer w in
  (Ok t,
   mkWorld (now w) (clock w) (localStorage w) (quota w) (database w) (files w)
           (idb w) (put_log w) (net w) (onLine w)
           (<[t := (cb, ms)]> (timers w)) (Pos.succ t) (sleeps w)).

Definition clearInterval (t : positive) : M World unit := λ w,
  (Ok tt, mkWorld (now w) (clock w) (localStorage w) (quota w) (database w) (files w)
                  (idb w) (put_log w) (net w) (onLine w)
                  (delete t (timers w)) (next_timer w) (sleeps w)).

(** A service method runs on its own fields ([this]) and the browser. *)
Definition this {T} : M (T * World) T := λ s, (Ok (fst s), s).
Definition set_this {T} (t : T) : M (T * World) unit := λ s, (Ok tt, (t, snd s)).
Definition world {T A} (m : M World A) : M (T * World) A := λ s,
  let '(r, w') := m (snd s) in (r, (fst s, w')).

(** ** [ReliabilityService] *)

Record ReliabilityService := mkReliabilityService {
  backupInterval : Z;
  maxBackups : Z;
  backupTimer : option positive;
  recoveryState : RecoveryState
}.

(** The field initialisers of the class. *)
Definition new_ReliabilityService : ReliabilityService :=
  mkReliabilityService 30000 10 None (mkRecoveryState 0 false 0 false).

Definition set_backupTimer (t : option positive) (r : ReliabilityService) :=
  mkReliabilityService (backupInterval r) (maxBackups r) t (recoveryState r).
Definition set_recoveryState (rs : RecoveryState) (r : ReliabilityService) :=
  mkReliabilityService (backupInterval r) (maxBackups r) (backupTimer r) rs.

Definition crash_flag : string := "codebuddy_crash_flag".
Definition recovery_state_key : string := "codebuddy_recovery_state".

(** JavaScript's truthiness, [typeof], property read and [Array.isArray]
    on the values of the fragment; [None] is [undefined]. *)
Definition truthy (v : option JsValue) : bool :=
  match v with
  | None | Some JNull => false
  | Some (JBool b) => b
  | Some (JNum n) => negb (n =? 0)
  | Some (JStr s) => negb (String.eqb s "")
  | Some (JArr _) | Some (JObj _) => true
  end.

Definition typeof (v : JsValue) : string :=
  match v with
  | JNull | JArr _ | JObj _ => "object"
  | JBool _ => "boolean"
  | JNum _ => "number"
  | JStr _ => "string"
  end.

(** [v.k] for a [v] that came out of [JSON.parse]: an own property of an
    object (the last one of that name), [undefined] anywhere else. *)
Definition get_prop (v : JsValue) (k : string) : option JsValue :=
  match v with
  | JObj props => snd <$> last (filter (λ kv, fst kv = k) props)
  | _ => None
  end.

Definition Array_isArray (v : option JsValue) : bool :=
  match v with Some (JArr _) => true | _ => false end.

Definition truthy_string (v : option string) : bool :=
  match v with Some s => negb (String.eqb s "") | None => false end.

Definition RecoveryState_json (rs : RecoveryState) : JsValue :=
  JObj [ ("lastSaved", JNum (lastSaved rs));
         ("unsavedChanges", JBool (unsavedChanges rs));
         ("backupCount", JNum (backupCount rs));
         ("crashDetected", JBool (crashDetected rs)) ].

Section Reliability.
Context `{Platform}.

Abbreviation RS := (ReliabilityService * World)%type.

(** [getAll()] on the store: every record, in ascending order of key. *)
Definition key_order (a b : string * BackupRow) : Z :=
  match String.compare (fst a) (fst b) with Lt => -1 | Eq => 0 | Gt => 1 end.

Definition getAll (db : gmap string BackupRow) : list BackupData :=
  record_of <$> Array_sort key_order (map_to_list db).

Definition generateChecksum (data : string) : string :=
  Sha256.hex (crypto_subtle_digest (Sha256.bytes_of_string data)).

Definition verifyBackup (backup : BackupData) : M RS bool :=
  try_catch
    (let calculatedChecksum := generateChecksum (content backup) in
     mret (String.eqb calculatedChecksum (checksum backup)))
    (λ _, mret false).

Definition validateRecoveredData (data : JsValue) : bool :=
  truthy (Some data) && String.eqb (typeof data) "object"
  && truthy (get_prop data "files") && Array_isArray (get_prop data "files").

(** In the three methods below, [db.transaction(['backups'], ...)] throws
    inside [onsuccess] when the database has no object store [backups]:
    nothing catches it there, and the promise is never settled. *)
Definition storeBackup (backup : BackupData) : M RS unit :=
  world (o ← idb_next;
         match o with
         | IdbOpenError => throw StorageError
         | IdbOk | IdbRequestError =>
             store ← open_database true;
             match store with
             | None => pending
             | Some rows =>
                 match o with
                 | IdbOk =>
                     w ← read_world;
                     idb_write (ObjectStore (<[id backup := row_of backup]> rows))
                               (files w) (backup :: put_log w)
                 | _ => throw StorageError
                 end
             end
         end).

(** [getBackups] has no [onupgradeneeded] handler: on a database that does
    not exist its [open] creates one without object store. *)
Definition getBackups : M RS (list BackupData) :=
  world (o ← idb_next;
         match o with
         | IdbOpenError => throw StorageError
         | IdbOk | IdbRequestError =>
             store ← open_database false;
             match store with
             | None => pending
             | Some rows =>
                 match o with
                 | IdbOk => mret (getAll rows)
                 | _ => throw StorageError
                 end
             end
         end).

(** [deleteBackup] has no [onupgradeneeded] handler either, and wires no
    [onerror] to its [open] request: when that request fails the promise is
    never settled. *)
Definition deleteBackup (backupId : string) : M RS unit :=
  world (o ← idb_next;
         match o with
         | IdbOpenError => pending
         | IdbOk | IdbRequestError =>
             store ← open_database false;
             match store with
             | None => pending
             | Some rows =>
                 match o with
                 | IdbOk =>
                     w ← read_world;
                     idb_write (ObjectStore (delete backupId rows)) (files w) (put_log w)
                 | _ => throw StorageError
                 end
             end
         end).

Definition by_timestamp_desc (a b : BackupData) : Z := timestamp b - timestamp a.

Definition cleanOldBackups : M RS unit :=
  try_catch
    (backups ← getBackups;
     r ← this;
     if Z.of_nat (length backups) <=? maxBackups r then mret tt
     else
       let sortedBackups := Array_sort by_timestamp_desc backups in
       let backupsToDelete := Array_slice (maxBackups r) sortedBackups in
       for_of backupsToDelete (λ backup, deleteBackup (id backup)))
    (λ _, mret tt).

Definition updateRecoveryState : M RS unit :=
  r ← this;
  world (localStorage_setItem recovery_state_key
           (JSON_stringify (RecoveryState_json (recoveryState r)))).

Definition createBackup (data : JsValue) : M RS unit :=
  try_catch
    (t_id ← world Date_now;
     t_stamp ← world Date_now;
     r ← this;
     let backup :=
       {| id := "backup_" +:+ pretty t_id;
          content := JSON_stringify data;
          timestamp := t_stamp;
          version := backupCount (recoveryState r) + 1;
          checksum := generateChecksum (JSON_stringify data) |} in
     storeBackup backup;;
     r ← this;
     let rs := recoveryState r in
     set_this (set_recoveryState
                 (mkRecoveryState (lastSaved rs) (unsavedChanges rs)
                                  (backupCount rs + 1) (crashDetected rs)) r);;
     updateRecoveryState;;
     cleanOldBackups)
    (λ error, throw error).

(** [backup] is [None] when the caller passed [undefined] (an index past
    the end of the array). *)
Definition recoverFromBackup (backup : option BackupData) : M RS JsValue :=
  try_catch
    (match backup with
     | None => throw TypeError
     | Some b =>
         match JSON_parse (content b) with
         | None => throw SyntaxError
         | Some data =>
             if negb (validateRecoveredData data) then throw ValidationError
             else mret data
         end
     end)
    (λ error, throw error).

(** The two [return this.recoverFromBackup(...)] are not awaited inside the
    [try]: the promise they return settles the caller's, past its [catch].
    [inl v] is a value returned from inside the [try], [inr b] the backup
    handed to [recoverFromBackup].  [null] is [JNull]. *)
Definition recoverFromCrash : M RS JsValue :=
  r ← try_catch
        (backups ← getBackups;
         if Z.of_nat (length backups) =? 0 then mret (inl JNull)
         else
           let sorted := Array_sort by_timestamp_desc backups in
           match sorted with
           | [] => throw TypeError
           | latestBackup :: _ =>
               isValid ← verifyBackup latestBackup;
               if negb isValid then mret (inr (sorted !! 1%nat))
               else mret (inr (Some latestBackup))
           end)
        (λ _, mret (inl JNull));
  match r with
  | inl v => mret v
  | inr backup => recoverFromBackup backup
  end.

Definition set_crashDetected (b : bool) : M RS unit :=
  r ← this;
  let rs := recoveryState r in
  set_this (set_recoveryState
              (mkRecoveryState (lastSaved rs) (unsavedChanges rs) (backupCount rs) b) r).

(** The [beforeunload] listener is the event [beforeunload] below. *)
Definition initializeRecovery : M RS unit :=
  crashFlag ← world (localStorage_getItem crash_flag);
  (if truthy_string crashFlag then
     set_crashDetected true;;
     detached recoverFromCrash
   else mret tt);;
  world (localStorage_setItem crash_flag "true").

(** [new ReliabilityService()]; the two [setup...] methods only register
    listeners. *)
Definition constructor : M World ReliabilityService := λ w,
  let '(r, (svc, w')) := initializeRecovery (new_ReliabilityService, w) in
  match r with
  | Ok _ => (Ok svc, w')
  | Throw e => (Throw e, w')
  | Pending => (Pending, w')
  end.

(** The page's [beforeunload] event: the listener of [initializeRecovery]
    clears the flag, the one of [setupBeforeUnloadHandler] returns the
    prompt when there are unsaved changes. *)
Definition beforeunload : M RS (option string) :=
  world (localStorage_removeItem crash_flag);;
  r ← this;
  if unsavedChanges (recoveryState r)
  then mret (Some "You have unsaved changes. Are you sure you want to leave?")
  else mret None.

Definition stopAutoBackup : M RS unit :=
  r ← this;
  match backupTimer r with
  | Some t => world (clearInterval t);; set_this (set_backupTimer None r)
  | None => mret tt
  end.

Definition startAutoBackup : M RS unit :=
  stopAutoBackup;;
  r ← this;
  t ← world (setInterval AutoBackupTick (backupInterval r));
  r ← this;
  set_this (set_backupTimer (Some t) r).

(** The body of the interval callback; [getDataCallback] is what the
    caller's producer does at this tick. *)
Definition autoBackupTick (getDataCallback : Result JsValue) : M RS unit :=
  try_catch
    (data ← settle getDataCallback;
     createBackup data;;
     t ← world Date_now;
     r ← this;
     let rs := recoveryState r in
     set_this (set_recoveryState
                 (mkRecoveryState t false (backupCount rs) (crashDetected rs)) r))
    (λ _, mret tt).

(** The browser firing timer [t]: nothing runs unless [t] is active. *)
Definition fire (t : positive) (getDataCallback : Result JsValue) : M RS unit :=
  w ← world read_world;
  match timers w !! t with
  | Some (AutoBackupTick, _) => autoBackupTick getDataCallback
  | _ => mret tt
  end.

Definition markUnsavedChanges : M RS unit :=
  r ← this;
  let rs := recoveryState r in
  set_this (set_recoveryState
              (mkRecoveryState (lastSaved rs) true (backupCount rs) (crashDetected rs)) r);;
  updateRecoveryState.

Definition getRecoveryState : M RS RecoveryState := r ← this; mret (recoveryState r).
Definition isCrashRecoveryAvailable : M RS bool :=
  r ← this; mret (crashDetected (recoveryState r)).
Definition triggerRecovery : M RS JsValue := recoverFromCrash.

Definition cleanup : M RS unit :=
  stopAutoBackup;;
  world (localStorage_removeItem crash_flag);;
  world (localStorage_removeItem recovery_state_key).

End Reliability.

(** ** [PerformanceService] *)

Record PerformanceMetrics := mkPerformanceMetrics {
  renderTime : Z;
  syncLatency : Z;
  memoryUsage : Z;
  cacheHitRate : Z
}.

(** An entry of the cache: [{ value, expires }]. *)
Record CacheItem := mkCacheItem {
  value : JsValue;
  expires : Z
}.

Record PerformanceService := mkPerformanceService {
  metrics : PerformanceMetrics;
  cache : gmap string CacheItem;
  cacheHits : Z;
  cacheMisses : Z
}.

Definition new_PerformanceService : PerformanceService :=
  mkPerformanceService (mkPerformanceMetrics 0 0 0 0) ∅ 0 0.

Section Performance.
Context `{Platform}.

Abbreviation PS := (PerformanceService * World)%type.

(** [ttl] is [None] when the caller leaves it out: the default is five
    minutes. *)
Definition setCache (key : string) (v : JsValue) (ttl : option Z) : M PS unit :=
  let ttl := default 300000 ttl in
  t ← world Date_now;
  p ← this;
  set_this (mkPerformanceService (metrics p)
              (<[key := mkCacheItem v (t + ttl)]> (cache p))
              (cacheHits p) (cacheMisses p)).

Definition getCache (key : string) : M PS JsValue :=
  p ← this;
  match cache p !! key with
  | None =>
      set_this (mkPerformanceService (metrics p) (cache p) (cacheHits p)
                                     (cacheMisses p + 1));;
      mret JNull
  | Some item =>
      t ← world Date_now;
      if expires item <? t then
        set_this (mkPerformanceService (metrics p) (delete key (cache p))
                                       (cacheHits p) (cacheMisses p + 1));;
        mret JNull
      else
        set_this (mkPerformanceService (metrics p) (cache p) (cacheHits p + 1)
                                       (cacheMisses p));;
        mret (value item)
  end.

(** [CodeBuddyDB] is opened here only, with the [onupgradeneeded] handler
    that creates its object store [files]: the store is there whenever the
    database is. *)
Definition saveToIndexedDB (fileId content : string) (timestamp : Z) : M PS unit :=
  world (o ← idb_next;
         match o with
         | IdbOk =>
             w ← read_world;
             idb_write (database w)
                       (<[fileId := mkFileRow content timestamp false]> (files w))
                       (put_log w)
         | IdbOpenError | IdbRequestError => throw StorageError
         end).

Definition maxRetries : Z := 3.

(** One pass through the body of the [try] of the sync loop. *)
Definition sync_attempt (data : JsValue) : M PS unit :=
  start ← world performance_now;
  status ← world fetch_sync;
  (if negb ((200 <=? status) && (status <=? 299)) then throw (SyncFailed status)
   else mret tt);;
  finish ← world performance_now;
  p ← this;
  let m := metrics p in
  set_this (mkPerformanceService
              (mkPerformanceMetrics (renderTime m) (finish - start) (memoryUsage m)
                                    (cacheHitRate m))
              (cache p) (cacheHits p) (cacheMisses p)).

(** [while (retries < maxRetries) { try { ...; return } catch { ... } }]
    with [n] the iterations left, [maxRetries - retries]. *)
Fixpoint sync_loop (n : nat) (data : JsValue) (retries : Z) : M PS unit :=
  match n with
  | O => mret tt
  | S n' =>
      try_catch (sync_attempt data)
        (λ error,
           let retries := retries + 1 in
           if maxRetries <=? retries then throw error
           else
             world (setTimeout_await (2 ^ retries * 1000));;
             sync_loop n' data retries)
  end.

Definition syncToServer (data : JsValue) : M PS unit :=
  sync_loop (Z.to_nat maxRetries) data 0.

Definition handleAutoSaveError (fileId content : string) : M PS unit :=
  try_catch
    (t ← world Date_now;
     world (localStorage_setItem ("backup_" +:+ fileId)
              (JSON_stringify (JObj [("content", JStr content); ("timestamp", JNum t)]))))
    (λ _, mret tt).

(** [new Date(timestamp).toISOString()] throws outside the range of dates. *)
Definition toISOString_check (timestamp : Z) : M PS unit :=
  if (Z.abs timestamp <=? 8640000000000000) then mret tt else throw RangeError.

(** The [try] block of [autoSave]. *)
Definition autoSave_try (content fileId : string) : M PS unit :=
  timestamp ← world Date_now;
  saveToIndexedDB fileId content timestamp;;
  w ← world read_world;
  (if onLine w then
     syncToServer (JObj [("fileId", JStr fileId); ("content", JStr content);
                         ("timestamp", JNum timestamp)])
   else mret tt);;
  toISOString_check timestamp.

Definition autoSave (content fileId : string) : M PS unit :=
  try_catch (autoSave_try content fileId)
            (λ _, handleAutoSaveError fileId content).

End Performance.

(** ** The callers: [App] and the [CrashRecovery] component

    The state of [App] that the two services see: the file tree of
    [useFileSystem] (an array), the open tabs and the id of the active one
    (both set from recovered data as they come), and two flags. *)
Record AppState := mkAppState {
  app_files : list JsValue;
  app_tabs : JsValue;
  app_activeTabId : JsValue;
  showCrashRecovery : bool;
  showHome : bool
}.






Section Callers.
Context `{Platform}.

(** The snapshot producer [App] hands to [startAutoBackup]. *)
Definition App_getDataCallback (a : AppState) : M World JsValue :=
  t ← Date_now;
  mret (JObj [ ("files", JArr (app_files a)); ("tabs", app_tabs a);
               ("activeTabId", app_activeTabId a); ("timestamp", JNum t) ]).

(** One tick of the timer [App] has started: the interval callback runs the
    producer inside its [try]. *)
Definition App_autoBackupTick (a : AppState) : M (ReliabilityService * World) unit :=
  λ s : ReliabilityService * World,
    let '(data, w) := App_getDataCallback a (snd s) in
    autoBackupTick data (fst s, w).





End Callers.

(** ** Notions the statements use *)

(** Most recent first. *)
Definition newer_first (a b : BackupData) : Prop := timestamp b ≤ timestamp a.

(** Everything of the browser but the IndexedDB stores and the schedule of
    its operations is the same in [w] and [w']. *)
Definition only_idb_changes (w w' : World) : Prop :=
  now w' = now w ∧ clock w' = clock w ∧ localStorage w' = localStorage w ∧
  quota w' = quota w ∧ files w' = files w ∧ put_log w' = put_log w ∧
  net w' = net w ∧ onLine w' = onLine w ∧ timers w' = timers w ∧
  next_timer w' = next_timer w ∧ sleeps w' = sleeps w.

(** The database [CodeBuddyBackups] has its object store [backups]. *)
Definition has_object_store (w : World) : bool :=
  match database w with
  | ObjectStore _ => true
  | NoDatabase | NoObjectStore => false
  end.

(** The database an [open] request without [onupgradeneeded] handler leaves
    behind when it succeeds. *)
Definition opened (db : Database) : Database :=
  match db with
  | NoDatabase => NoObjectStore
  | _ => db
  end.

(** How [storeBackup] ends: it rejects when the [open] request fails or,
    the store being there (or being created by this very request), the
    write fails; it never settles when the database is there without the
    object store. *)
Definition storeBackup_result (w : World) : Result unit :=
  match hd IdbOk (idb w), database w with
  | IdbOpenError, _ => Throw StorageError
  | _, NoObjectStore => Pending
  | IdbOk, _ => Ok tt
  | IdbRequestError, _ => Throw StorageError
  end.

Section Notions.
Context `{Platform}.

(** The snapshots the retention policy is after: those past the first
    [maxBackups] in most-recent-first order. *)
Definition beyond_newest (r : ReliabilityService) (db : gmap string BackupRow)
  : list BackupData :=
  Array_slice (maxBackups r) (Array_sort by_timestamp_desc (getAll db)).

(** How [getBackups] ends: it rejects when the [open] request fails or,
    the store being there, the read fails; it never settles when the
    database has no object store. *)
Definition getBackups_result (w : World) : Result (list BackupData) :=
  match hd IdbOk (idb w) with
  | IdbOpenError => Throw StorageError
  | o =>
      if has_object_store w then
        match o with IdbOk => Ok (getAll (backups w)) | _ => Throw StorageError end
      else Pending
  end.

End Notions.

(** The service after one more snapshot has been counted. *)
Definition bump (r : ReliabilityService) : ReliabilityService :=
  set_recoveryState
    (mkRecoveryState (lastSaved (recoveryState r)) (unsavedChanges (recoveryState r))
                     (backupCount (recoveryState r) + 1) (crashDetected (recoveryState r))) r.

Section RecoveryNotions.
Context `{Platform}.

(** The checksum test of [verifyBackup]. *)
Definition verifies (b : BackupData) : bool :=
  String.eqb (generateChecksum (content b)) (checksum b).

(** How [recoverFromBackup] ends on the snapshot it is handed. *)
Definition restore (backup : option BackupData) : Result JsValue :=
  match backup with
  | None => Throw TypeError
  | Some b =>
      match JSON_parse (content b) with
      | None => Throw SyntaxError
      | Some data => if validateRecoveredData data then Ok data else Throw ValidationError
      end
  end.


End RecoveryNotions.

(** [b] is in [l] and strictly newer than everything else in [l]. *)
Definition strictly_newest (b : BackupData) (l : list BackupData) : Prop :=
  b ∈ l ∧ ∀ b', b' ∈ l → b' ≠ b → timestamp b' < timestamp b.

#[global] Instance strictly_newest_dec b l : Decision (strictly_newest b l).
Proof.
  refine (cast_if (decide (b ∈ l ∧ Forall (λ b', b' ≠ b → timestamp b' < timestamp b) l)));
    abstract (unfold strictly_newest; rewrite Forall_forall in *; naive_solver).
Defined.

(** *** A session of the reliability service

    What can happen to the service and its browser, one event at a time:
    the calls of its methods, the browser firing a timer or unloading the
    page, and the other code of the page setting and clearing timers of its
    own.  An event whose promise rejects or never settles still leaves its
    writes behind, and the session goes on. *)
Inductive Op : Type :=
  | Init
  | StartAutoBackup
  | StopAutoBackup
  | Fire (t : positive) (getDataCallback : Result JsValue)
  | CreateBackup (data : JsValue)
  | MarkUnsavedChanges
  | TriggerRecovery
  | Cleanup
  | BeforeUnload
  | PageSetInterval (ms : Z)
  | PageClearInterval (t : positive).

Section Session.
Context `{Platform}.

Definition step (op : Op) (s : ReliabilityService * World) : ReliabilityService * World :=
  match op with
  | Init => snd (initializeRecovery s)
  | StartAutoBackup => snd (startAutoBackup s)
  | StopAutoBackup => snd (stopAutoBackup s)
  | Fire t getDataCallback => snd (fire t getDataCallback s)
  | CreateBackup data => snd (createBackup data s)
  | MarkUnsavedChanges => snd (markUnsavedChanges s)
  | TriggerRecovery => snd (triggerRecovery s)
  | Cleanup => snd (cleanup s)
  | BeforeUnload => snd (beforeunload s)
  | PageSetInterval ms => snd (world (setInterval OtherCallback ms) s)
  | PageClearInterval t => snd (world (clearInterval t) s)
  end.

Definition session (ops : list Op) (s : ReliabilityService * World)
  : ReliabilityService * World :=
  foldl (λ s op, step op s) s ops.

End Session.

(** No auto-backup timer is active. *)
Definition no_auto_timer (w : World) : Prop :=
  ∀ t ms, timers w !! t ≠ Some (AutoBackupTick, ms).

(** Every active auto-backup timer is the one the service holds: there is
    at most one. *)
Definition at_most_one_timer (s : ReliabilityService * World) : Prop :=
  ∀ t ms, timers (snd s) !! t = Some (AutoBackupTick, ms) → backupTimer (fst s) = Some t.

(** The backup counter of the service in a state. *)
Abbreviation count s := (backupCount (recoveryState (fst s))).

Section Footprint.
Context `{Platform}.

(** What an event can do to the write log and the counter, and whether it
    leaves the timers alone. *)
Definition log_step (s s' : ReliabilityService * World) : Prop :=
  (put_log (snd s') = put_log (snd s) ∧ count s' = count s) ∨
  (∃ b, put_log (snd s') = b :: put_log (snd s) ∧ count s' = count s + 1 ∧
        version b = count s + 1).

Definition timers_kept (s s' : ReliabilityService * World) : Prop :=
  timers (snd s') = timers (snd s) ∧ backupTimer (fst s') = backupTimer (fst s).

End Footprint.

(** The error an attempt of the sync loop ends in, by how its [fetch]
    ends; [None] when the attempt succeeds. *)
Definition attempt_error (o : FetchOutcome) : option JsError :=
  match o with
  | FetchRejects _ => Some NetworkError
  | FetchResponse status _ =>
      if (200 <=? status) && (status <=? 299) then None else Some (SyncFailed status)
  end.

(** The [k]-th scheduled outcome of [fetch], from 0. *)
Definition fetch_outcome (w : World) (k : nat) : FetchOutcome :=
  nth k (net w) (FetchRejects 0).

(** *** A session of the cache: writes and reads, in order. *)
Inductive CacheOp : Type :=
  | CacheSet (key : string) (v : JsValue) (ttl : option Z)
  | CacheGet (key : string).

Section CacheSession.
Context `{Platform}.

Definition cache_step (op : CacheOp) (s : PerformanceService * World)
  : PerformanceService * World :=
  match op with
  | CacheSet key v ttl => snd (setCache key v ttl s)
  | CacheGet key => snd (getCache key s)
  end.

Definition cache_session (ops : list CacheOp) (s : PerformanceService * World)
  : PerformanceService * World :=
  foldl (λ s op, cache_step op s) s ops.

Definition is_get (op : CacheOp) : bool :=
  match op with CacheGet _ => true | CacheSet _ _ _ => false end.

End CacheSession.

(** The message of the [beforeunload] listener. *)
Definition unsaved_prompt : string :=
  "You have unsaved changes. Are you sure you want to leave?".

(** ** Proof steps *)

(** Unfold the monad of the code. *)
Ltac run_M :=
  unfold mbind, M_bind, mret, M_ret, world, this, set_this, try_catch, throw,
    pending, settle, detached, read_world, idb_next, idb_write; simpl.

(** Case on how a [fetch] ends and on whether its status is a success. *)
Ltac fetch_case o :=
  destruct o as [?dt|?st ?dt]; simpl;
  [|match goal with |- context [(200 <=? ?st) && (?st <=? 299)] =>
      destruct ((200 <=? st) && (st <=? 299)); simpl end].

(** ** Concrete stores, on the concrete platform *)
Section Scenarios.
#[local] Existing Instance browser.

(** A browser at time [t] with empty storage (no database yet) and no
    timer, online, whose clock moves by [ticks], whose [setItem] calls find
    the store full as [full] says, and whose IndexedDB operations and
    [fetch] calls end as [ops] and [fetches] say. *)
Definition scene (t : Z) (ticks : list Z) (full : list bool) (ops : list IdbOutcome)
    (fetches : list FetchOutcome) : World :=
  mkWorld t ticks ∅ full NoDatabase ∅ ops [] fetches true ∅ 1%positive [].

Definition blank_world : World := scene 0 [] [] [] [].

Definition with_backups (bs : list BackupData) (w : World) : World :=
  mkWorld (now w) (clock w) (localStorage w) (quota w)
          (ObjectStore (list_to_map ((λ b, (id b, row_of b)) <$> bs))) (files w) (idb w)
          (put_log w) (net w) (onLine w) (timers w) (next_timer w) (sleeps w).

Definition project (name : string) : JsValue :=
  JObj [("files", JArr [JObj [("name", JStr name)]])].

(** The snapshot [createBackup] writes at time [t] as version [v]. *)
Definition snapshot (v t : Z) (data : JsValue) : BackupData :=
  {| id := "backup_" +:+ pretty t;
     content := JSON_stringify data;
     timestamp := t;
     version := v;
     checksum := generateChecksum (JSON_stringify data) |}.

(** A snapshot whose stored checksum no longer matches its payload. *)
Definition corrupt_checksum (b : BackupData) : BackupData :=
  mkBackupData (id b) (content b) (timestamp b) (version b) ("0" +:+ checksum b).

(** A snapshot whose stored payload was cut short. *)
Definition truncated (b : BackupData) : BackupData :=
  mkBackupData (id b) (String.substring 0 9 (content b)) (timestamp b) (version b)
               (checksum b).

Definition v1 : BackupData := snapshot 1 1000 (project "one.ts").
Definition v2 : BackupData := snapshot 2 2000 (project "two.ts").
Definition v3 : BackupData := snapshot 3 3000 (project "three.ts").

(** A service that keeps two snapshots. *)
Definition keeps_two : ReliabilityService :=
  mkReliabilityService 30000 2 None (mkRecoveryState 0 false 0 false).

End Scenarios.

(** ** Two sessions of the editor, on the concrete platform *)
Section Sessions.
#[local] Existing Instance browser.

(** [App] with one file and one tab open. *)
Definition editing : AppState :=
  mkAppState [JObj [("name", JStr "main.ts")]]
             (JArr [JObj [("id", JStr "tab-1")]]) (JStr "tab-1") false false.


(** A first session, its service constructed at time 5000. *)
Definition first_session : ReliabilityService * World :=
  snd (initializeRecovery
         (new_ReliabilityService, scene 5000 [1; 1; 1; 1; 1; 1] [] [] [])).
Definition first_service : ReliabilityService := fst first_session.
Definition first_world : World := snd first_session.

(** The next session, when the first one ended, without [beforeunload],
    after one tick of the timer of [App]. *)
Definition after_crash : ReliabilityService * World :=
  snd (initializeRecovery
         (new_ReliabilityService,
          snd (snd (App_autoBackupTick editing (first_service, first_world))))).
Definition next_service : ReliabilityService := fst after_crash.
Definition next_world : World := snd after_crash.

(** A store of two snapshots, at the limit of [keeps_two], on which the
    third IndexedDB operation from now cannot open the database. *)
Definition third_open_fails : World :=
  with_backups [v1; v2] (scene 5000 [1; 1] [] [IdbOk; IdbOk; IdbOpenError] []).

(** A store of three snapshots whose next four IndexedDB operations succeed. *)
Definition three_stored : World :=
  with_backups [v1; v2; v3] (scene 5000 [1; 1] [] [IdbOk; IdbOk; IdbOk; IdbOk] []).

End Sessions.

(* ------------------------------------------------------------------ *)
(** * Properties *)

Example sha256_abc :
  Sha256.sha256_hex "abc"
  = "ba7816bf8f01cfea414140de5dae2223b00361a396177a9cb410ff61f20015ad".
Proof. vm_compute. reflexivity. Qed.

Example sha256_empty :
  Sha256.sha256_hex ""
  = "e3b0c44298fc1c149afbf4c8996fb92427ae41e4649b934ca495991b7852b855".
Proof. vm_compute. reflexivity. Qed.

Example sha256_two_blocks :
  Sha256.sha256_hex "aaaaaaaaaaaaaaaaaaaaaaaaaaaaaaaaaaaaaaaaaaaaaaaaaaaaaaaa"
  = "b35439a4ac6f0948b6d6f9e3c6af0f5f590ce20f1bde7090ef7970686ec6738a".
Proof. vm_compute. reflexivity. Qed.

Example stringify_files :
  Json.parse (Json.stringify (JObj [("files", JArr [JStr "a.ts"; JNum (-3)]); ("n", JNull)]))
  = Some (JObj [("files", JArr [JStr "a.ts"; JNum (-3)]); ("n", JNull)]).
Proof. vm_compute. reflexivity. Qed.

Example parse_garbage : Json.parse "{files:[]}" = None.
Proof. vm_compute. reflexivity. Qed.


(** ** [Array.prototype.sort] with the comparator of the service *)
Section SortFacts.
Context {A : Type} (cmp : A → A → Z).

Lemma sort_insert_perm x l : sort_insert cmp x l ≡ₚ x :: l.
Proof.
  induction l as [|y l IH]; simpl; [done|].
  destruct (cmp x y <=? 0); [done|].
  rewrite IH. apply Permutation_swap.
Qed.

Lemma Array_sort_perm l : Array_sort cmp l ≡ₚ l.
Proof.
  induction l as [|x l IH]; simpl; [done|].
  rewrite sort_insert_perm. by f_equiv.
Qed.

Lemma Array_sort_length l : length (Array_sort cmp l) = length l.
Proof. by rewrite Array_sort_perm. Qed.

End SortFacts.


Lemma sort_insert_desc x l :
  StronglySorted newer_first l →
  StronglySorted newer_first (sort_insert by_timestamp_desc x l).
Proof.
  induction 1 as [|y l Hs IH Hy]; simpl.
  - repeat constructor.
  - unfold by_timestamp_desc at 1.
    destruct (Z.leb_spec (timestamp y - timestamp x) 0) as [Hle|Hgt].
    + constructor; [by constructor|].
      constructor; [unfold newer_first; lia|].
      eapply Forall_impl; [exact Hy|]. unfold newer_first. intros; lia.
    + constructor; [done|].
      rewrite sort_insert_perm. constructor; [unfold newer_first; lia|done].
Qed.

Lemma Array_sort_desc l : StronglySorted newer_first (Array_sort by_timestamp_desc l).
Proof.
  induction l as [|x l IH]; simpl; [constructor|]. by apply sort_insert_desc.
Qed.

Lemma sorted_head_newest (x h : BackupData) t :
  StronglySorted newer_first (h :: t) →
  x ∈ h :: t →
  (∀ y, y ∈ h :: t → y ≠ x → timestamp y < timestamp x) →
  h = x.
Proof.
  intros Hs Hx Hnew.
  destruct (decide (h = x)) as [|Hne]; [done|].
  apply elem_of_cons in Hx as [->|Hx]; [done|].
  apply StronglySorted_inv in Hs as [_ Hall].
  rewrite Forall_forall in Hall. specialize (Hall x Hx). unfold newer_first in Hall.
  specialize (Hnew h (list_elem_of_here _ _) Hne). lia.
Qed.

(** ** The object store as [getAll] shows it *)
Section StoreFacts.
Context `{Platform}.

Lemma record_of_row_of b : record_of (id b, row_of b) = b.
Proof. by destruct b. Qed.

Lemma getAll_perm db : getAll db ≡ₚ record_of <$> map_to_list db.
Proof. unfold getAll. by rewrite Array_sort_perm. Qed.

Lemma elem_of_getAll db b : b ∈ getAll db ↔ db !! id b = Some (row_of b).
Proof.
  rewrite getAll_perm, list_elem_of_fmap. split.
  - intros ([k row] & -> & Hin). apply elem_of_map_to_list in Hin. by destruct row.
  - intros Hl. exists (id b, row_of b). split; [by rewrite record_of_row_of|].
    by apply elem_of_map_to_list.
Qed.

Lemma getAll_ids db : id <$> getAll db ≡ₚ (map_to_list db).*1.
Proof.
  rewrite getAll_perm, <- list_fmap_compose. done.
Qed.

Lemma NoDup_getAll_ids db : NoDup (id <$> getAll db).
Proof. rewrite getAll_ids. apply NoDup_fst_map_to_list. Qed.

Lemma NoDup_getAll db : NoDup (getAll db).
Proof. eapply NoDup_fmap_1, NoDup_getAll_ids. Qed.

Lemma length_getAll db : length (getAll db) = size db.
Proof. by rewrite getAll_perm, length_fmap, length_map_to_list. Qed.

Lemma getAll_empty : getAll ∅ = [].
Proof. apply length_zero_iff_nil. by rewrite length_getAll, map_size_empty. Qed.

(** Two stored snapshots with one id are one snapshot. *)
Lemma getAll_id_inj db b b' : b ∈ getAll db → b' ∈ getAll db → id b = id b' → b = b'.
Proof.
  rewrite !elem_of_getAll. intros Hb Hb' Hid. rewrite Hid in Hb.
  rewrite Hb in Hb'. destruct b, b'; simpl in *. by simplify_eq.
Qed.

End StoreFacts.


(** ** The IndexedDB operations, run *)
Section RunFacts.
Context `{Platform}.

Lemma only_idb_changes_refl w : only_idb_changes w w.
Proof. by repeat split. Qed.

Lemma only_idb_changes_trans w1 w2 w3 :
  only_idb_changes w1 w2 → only_idb_changes w2 w3 → only_idb_changes w1 w3.
Proof. unfold only_idb_changes. intros. destruct_and!. repeat split; congruence. Qed.

Lemma has_object_store_elem w b :
  b ∈ getAll (backups w) → has_object_store w = true.
Proof.
  unfold backups, has_object_store. destruct (database w); try done.
  all: by rewrite getAll_empty; intros ?%elem_of_nil.
Qed.

Lemma has_object_store_size w :
  (0 < size (backups w))%nat → has_object_store w = true.
Proof.
  unfold backups, has_object_store. destruct (database w); try done.
  all: rewrite map_size_empty; lia.
Qed.

Lemma has_object_store_backups w w' :
  has_object_store w = true → database w' = database w → backups w' = backups w.
Proof. unfold backups. by intros _ ->. Qed.

Lemma deleteBackup_run k r w :
  ∃ w', only_idb_changes w w' ∧ idb w' = tl (idb w) ∧
    has_object_store w' = has_object_store w ∧
    match hd IdbOk (idb w), has_object_store w with
    | IdbOk, true =>
        deleteBackup k (r, w) = (Ok tt, (r, w')) ∧ backups w' = delete k (backups w)
    | IdbRequestError, true =>
        deleteBackup k (r, w) = (Throw StorageError, (r, w')) ∧ backups w' = backups w
    | _, _ => deleteBackup k (r, w) = (Pending, (r, w')) ∧ backups w' = backups w
    end.
Proof.
  unfold deleteBackup, open_database, has_object_store, backups. run_M.
  destruct (hd IdbOk (idb w)), (database w);
    eexists; (split; [|split; [|split; [|split; [reflexivity|]]]]);
    simpl; try done; by repeat split.
Qed.

Lemma not_all_ok w o :
  hd IdbOk (idb w) = o → o ≠ IdbOk → ¬ Forall (λ o, o = IdbOk) (idb w).
Proof.
  intros Hhd Hne Hall. destruct (idb w); simpl in *; [by subst|].
  apply Forall_cons_1 in Hall as [? _]. by subst.
Qed.

Lemma delete_loop_run (bs : list BackupData) r w :
  has_object_store w = true →
  ∃ res w' ks,
    for_of bs (λ backup, deleteBackup (id backup)) (r, w) = (res, (r, w')) ∧
    only_idb_changes w w' ∧
    has_object_store w' = true ∧
    ks `prefix_of` (id <$> bs) ∧
    backups w' = foldr delete (backups w) ks ∧
    (Forall (λ o, o = IdbOk) (idb w) → res = Ok tt ∧ ks = id <$> bs).
Proof.
  revert w. induction bs as [|b bs IH]; intros w Hstore.
  - exists (Ok tt), w, []. by repeat split.
  - destruct (deleteBackup_run (id b) r w) as (w1 & Hfr & Hidb & Hst & Hrun).
    simpl. unfold mbind, M_bind at 1. rewrite Hstore in Hrun, Hst.
    destruct (hd IdbOk (idb w)) eqn:Hhd; destruct Hrun as [-> Hb].
    + destruct (IH w1 Hst) as (res & w' & ks & -> & Hfr' & Hst' & Hpre & Hbs & Hok).
      exists res, w', (id b :: ks). split; [done|].
      split; [by eapply only_idb_changes_trans|]. split; [done|].
      split; [by apply prefix_cons|].
      split; [simpl; by rewrite Hbs, Hb, delete_foldr_delete|].
      intros Hall. destruct Hok as [-> ->]; [|done].
      rewrite Hidb. destruct (idb w); [done|]. by eapply Forall_cons_1.
    + exists Pending, w1, [].
      split; [done|]. split; [done|]. split; [done|]. split; [apply prefix_nil|].
      split; [done|]. intros Hall. by eapply not_all_ok in Hall.
    + exists (Throw StorageError), w1, [].
      split; [done|]. split; [done|]. split; [done|]. split; [apply prefix_nil|].
      split; [done|]. intros Hall. by eapply not_all_ok in Hall.
Qed.

Lemma getBackups_run r w :
  ∃ w', only_idb_changes w w' ∧ idb w' = tl (idb w) ∧ backups w' = backups w ∧
    has_object_store w' = has_object_store w ∧
    database w' = match hd IdbOk (idb w) with
                  | IdbOpenError => database w
                  | _ => opened (database w)
                  end ∧
    getBackups (r, w) = (getBackups_result w, (r, w')).
Proof.
  unfold getBackups, getBackups_result, open_database, has_object_store, backups. run_M.
  destruct (hd IdbOk (idb w)), (database w);
    eexists; (split; [|split; [|split; [|split; [|split; [|reflexivity]]]]]);
    simpl; try done; by repeat split.
Qed.

Lemma Array_slice_nonneg {A} (k : Z) (l : list A) :
  0 ≤ k → Array_slice k l = drop (Z.to_nat k) l.
Proof.
  intros Hk. unfold Array_slice.
  destruct (Z.ltb_spec k 0) as [|_]; [lia|].
  destruct (Z.le_gt_cases k (Z.of_nat (length l))) as [Hle|Hgt].
  - by rewrite Z.min_l.
  - rewrite Z.min_r, Nat2Z.id, !drop_ge by lia. done.
Qed.

Lemma cleanOldBackups_run r w :
  ∃ res w' ks,
    cleanOldBackups (r, w) = (res, (r, w')) ∧
    (res = Ok tt ∨ res = Pending) ∧
    only_idb_changes w w' ∧
    has_object_store w' = has_object_store w ∧
    ks `prefix_of` (id <$> beyond_newest r (backups w)) ∧
    backups w' = foldr delete (backups w) ks ∧
    (Forall (λ o, o = IdbOk) (idb w) → has_object_store w = true →
       res = Ok tt ∧ ks = id <$> beyond_newest r (backups w)).
Proof.
  destruct (getBackups_run r w) as (w1 & Hfr & Hidb & Hbs & Hst & _ & Hrun).
  unfold cleanOldBackups, try_catch. unfold mbind, M_bind at 1. rewrite Hrun.
  unfold getBackups_result.
  destruct (hd IdbOk (idb w)) eqn:Hhd.
  2:{ exists (Ok tt), w1, []. split; [done|]. split; [by left|]. split; [done|].
      split; [done|]. split; [apply prefix_nil|]. split; [done|].
      intros Hall. by eapply not_all_ok in Hall. }
  2:{ destruct (has_object_store w) eqn:Hstore;
        [exists (Ok tt), w1, [] | exists Pending, w1, []];
        (split; [done|]); (split; [by (left + right)|]); (split; [done|]);
        (split; [done|]); (split; [apply prefix_nil|]); (split; [done|]);
        intros Hall; by eapply not_all_ok in Hall. }
  destruct (has_object_store w) eqn:Hstore.
  2:{ exists Pending, w1, []. split; [done|]. split; [by right|]. split; [done|].
      split; [done|]. split; [apply prefix_nil|]. by split. }
  unfold mbind, M_bind, this; simpl.
  destruct (Z.leb_spec (Z.of_nat (length (getAll (backups w)))) (maxBackups r)) as [Hle|Hgt].
  - exists (Ok tt), w1, []. unfold mret, M_ret.
    assert (beyond_newest r (backups w) = []) as Hnil.
    { unfold beyond_newest. rewrite Array_slice_nonneg by lia.
      apply drop_ge. rewrite Array_sort_length. lia. }
    rewrite Hnil. split; [done|]. split; [by left|]. split; [done|]. split; [done|].
    split; [apply prefix_nil|]. by split.
  - destruct (delete_loop_run
                (Array_slice (maxBackups r)
                   (Array_sort by_timestamp_desc (getAll (backups w)))) r w1 Hst)
      as (res & w' & ks & Hloop & Hfr' & Hst' & Hpre & Hbs' & Hok).
    rewrite Hloop.
    assert (Forall (λ o, o = IdbOk) (idb w) → Forall (λ o, o = IdbOk) (idb w1)) as Htl.
    { rewrite Hidb. intros Hall. destruct (idb w); [done|]. by eapply Forall_cons_1. }
    destruct res as [[]|e|].
    + exists (Ok tt), w', ks. split; [done|]. split; [by left|].
      split; [by eapply only_idb_changes_trans|]. split; [done|]. split; [done|].
      split; [by rewrite Hbs', Hbs|]. intros Hall _. by destruct (Hok (Htl Hall)).
    + exists (Ok tt), w', ks. split; [done|]. split; [by left|].
      split; [by eapply only_idb_changes_trans|]. split; [done|]. split; [done|].
      split; [by rewrite Hbs', Hbs|]. intros Hall _. by destruct (Hok (Htl Hall)).
    + exists Pending, w', ks. split; [done|]. split; [by right|].
      split; [by eapply only_idb_changes_trans|]. split; [done|]. split; [done|].
      split; [by rewrite Hbs', Hbs|]. intros Hall _. by destruct (Hok (Htl Hall)).
Qed.

End RunFacts.
Section Retention.
Context `{Platform}.

Lemma sorted_ids_NoDup db : NoDup (id <$> Array_sort by_timestamp_desc (getAll db)).
Proof. rewrite Array_sort_perm. apply NoDup_getAll_ids. Qed.

(** The strictly newest snapshot heads the most-recent-first order. *)
Lemma newest_is_head db b :
  b ∈ getAll db →
  (∀ b', b' ∈ getAll db → b' ≠ b → timestamp b' < timestamp b) →
  ∃ older, Array_sort by_timestamp_desc (getAll db) = b :: older.
Proof.
  intros Hb Hnew.
  pose proof (Array_sort_desc (getAll db)) as Hsorted.
  pose proof (Array_sort_perm by_timestamp_desc (getAll db)) as Hperm.
  destruct (Array_sort by_timestamp_desc (getAll db)) as [|h t] eqn:Hs.
  { rewrite <- Hperm in Hb. by apply elem_of_nil in Hb. }
  exists t. f_equal. apply (sorted_head_newest b h t); [done|by rewrite Hperm|].
  intros y Hy. apply Hnew. by rewrite <- Hperm.
Qed.

Lemma kept_iff db n x :
  x ∈ take n (Array_sort by_timestamp_desc (getAll db)) ↔
  x ∈ getAll db ∧ id x ∉ id <$> drop n (Array_sort by_timestamp_desc (getAll db)).
Proof.
  pose proof (sorted_ids_NoDup db) as Hnd.
  pose proof (Array_sort_perm by_timestamp_desc (getAll db)) as Hperm.
  rewrite <- Hperm at 2.
  set (sorted := Array_sort by_timestamp_desc (getAll db)) in *.
  rewrite <- (take_drop n sorted) in Hnd. rewrite fmap_app, NoDup_app in Hnd.
  destruct Hnd as (_ & Hdisj & _).
  rewrite <- (take_drop n sorted) at 2. rewrite elem_of_app. split.
  - intros Hx. split; [by left|]. apply Hdisj. by apply list_elem_of_fmap_2.
  - intros [[Hx|Hx] Hid]; [done|]. destruct Hid. by apply list_elem_of_fmap_2.
Qed.

(** Whatever IndexedDB does, the retention policy leaves the strictly
    newest snapshot in the store. *)
Lemma cleanOldBackups_newest_survives r w b :
  1 ≤ maxBackups r →
  strictly_newest b (getAll (backups w)) →
  b ∈ getAll (backups (snd (snd (cleanOldBackups (r, w))))).
Proof.
  intros Hmax [Hb Hnew].
  destruct (cleanOldBackups_run r w) as (res & w' & ks & -> & _ & _ & _ & Hpre & Hbs & _).
  destruct (newest_is_head _ _ Hb Hnew) as [older Hsorted]. simpl.
  unfold beyond_newest in *. rewrite Array_slice_nonneg in * by lia.
  assert (b ∈ take (Z.to_nat (maxBackups r))
                   (Array_sort by_timestamp_desc (getAll (backups w)))) as Hkept.
  { rewrite Hsorted. destruct (Z.to_nat (maxBackups r)) eqn:Hn; [lia|]. simpl. by left. }
  apply kept_iff in Hkept as [_ Hid].
  apply elem_of_getAll. rewrite Hbs, lookup_foldr_delete_not_elem_of.
  - by apply elem_of_getAll.
  - intros Hin. apply Hid. destruct Hpre as [k ->]. rewrite elem_of_app. by left.
Qed.

(** When no IndexedDB operation fails, the retention policy keeps exactly
    the first [maxBackups] snapshots in most-recent-first order. *)
Lemma cleanOldBackups_exact r w :
  0 ≤ maxBackups r →
  Forall (λ o, o = IdbOk) (idb w) →
  has_object_store w = true →
  ∃ w',
    cleanOldBackups (r, w) = (Ok tt, (r, w')) ∧
    let sorted := Array_sort by_timestamp_desc (getAll (backups w)) in
    let n := Z.to_nat (maxBackups r) in
    getAll (backups w') ≡ₚ take n sorted ∧
    (∀ b, b ∈ drop n sorted → backups w' !! id b = None).
Proof.
  intros Hmax Hall Hstore.
  destruct (cleanOldBackups_run r w) as (res & w' & ks & Hrun & _ & _ & _ & _ & Hbs & Hok).
  destruct (Hok Hall Hstore) as [-> ->]. exists w'. split; [done|]. cbv zeta.
  unfold beyond_newest in *. rewrite Array_slice_nonneg in * by lia. split.
  - apply NoDup_Permutation.
    + apply NoDup_getAll.
    + eapply NoDup_fmap_1 with (f := id). rewrite fmap_take.
      eapply sublist_NoDup; [apply sorted_ids_NoDup|apply sublist_take].
    + intros x. rewrite kept_iff, !elem_of_getAll, Hbs, lookup_foldr_delete_Some. tauto.
  - intros b Hb. rewrite Hbs. apply lookup_foldr_delete. by apply list_elem_of_fmap_2.
Qed.

(** The retention policy only deletes, and only snapshots that are past
    the first [maxBackups] in most-recent-first order. *)
Lemma cleanOldBackups_only_beyond r w x :
  0 ≤ maxBackups r →
  let w' := snd (snd (cleanOldBackups (r, w))) in
  (x ∈ getAll (backups w') → x ∈ getAll (backups w)) ∧
  (x ∈ getAll (backups w) → x ∉ getAll (backups w') →
   x ∈ drop (Z.to_nat (maxBackups r)) (Array_sort by_timestamp_desc (getAll (backups w)))).
Proof.
  intros Hmax.
  destruct (cleanOldBackups_run r w) as (res & w' & ks & -> & _ & _ & _ & Hpre & Hbs & _).
  simpl. unfold beyond_newest in *. rewrite Array_slice_nonneg in * by lia.
  rewrite !elem_of_getAll, Hbs, lookup_foldr_delete_Some. split; [tauto|].
  intros Hx Hgone.
  assert (id x ∈ ks) as Hin. { destruct (decide (id x ∈ ks)); [done|tauto]. }
  assert (id x ∈ id <$> drop (Z.to_nat (maxBackups r))
                          (Array_sort by_timestamp_desc (getAll (backups w)))) as Hin'.
  { destruct Hpre as [k ->]. rewrite elem_of_app. by left. }
  apply list_elem_of_fmap in Hin' as (y & Hid & Hy).
  assert (y ∈ getAll (backups w)) as Hy'.
  { rewrite <- (Array_sort_perm by_timestamp_desc). by eapply subseteq_drop. }
  assert (x = y) as ->; [|done].
  apply (getAll_id_inj (backups w)); [by apply elem_of_getAll|done|done].
Qed.

(** [C3] The retention policy, for every store and every limit of at least
    one snapshot.  Whatever IndexedDB does, the strictly newest snapshot (by
    timestamp) is still stored afterwards, nothing is added to the store,
    and whatever was removed is past the first [maxBackups] snapshots in
    most-recent-first order.  When no IndexedDB operation fails, what is
    stored afterwards is exactly [kept], the first [maxBackups] snapshots in
    most-recent-first order, and every snapshot of [deleted], the ones
    beyond them, is gone: [kept] and [deleted] together are the store
    before, nothing deleted is newer than anything kept, and [kept] has
    [maxBackups] elements or is the whole store. *)
Theorem cleanOldBackups_keeps_newest r w b :
  1 ≤ maxBackups r →
  strictly_newest b (getAll (backups w)) →
  ∃ res w',
    cleanOldBackups (r, w) = (res, (r, w')) ∧
    b ∈ getAll (backups w') ∧
    (∀ x, x ∈ getAll (backups w') → x ∈ getAll (backups w)) ∧
    (∀ x, x ∈ getAll (backups w) → x ∉ getAll (backups w') →
          x ∈ drop (Z.to_nat (maxBackups r))
                   (Array_sort by_timestamp_desc (getAll (backups w)))) ∧
    (Forall (λ o, o = IdbOk) (idb w) →
       ∃ kept deleted,
         res = Ok tt ∧
         kept = take (Z.to_nat (maxBackups r))
                     (Array_sort by_timestamp_desc (getAll (backups w))) ∧
         deleted = drop (Z.to_nat (maxBackups r))
                        (Array_sort by_timestamp_desc (getAll (backups w))) ∧
         kept ++ deleted ≡ₚ getAll (backups w) ∧
         getAll (backups w') ≡ₚ kept ∧
         (∀ d, d ∈ deleted → backups w' !! id d = None) ∧
         length kept = (Z.to_nat (maxBackups r) `min` size (backups w))%nat ∧
         (∀ k d, k ∈ kept → d ∈ deleted → timestamp d ≤ timestamp k) ∧
         b ∈ kept).
Proof.
  intros Hmax Hnewest.
  pose proof (cleanOldBackups_newest_survives r w b Hmax Hnewest) as Hsurvives.
  assert (0 ≤ maxBackups r) as Hmax0 by lia.
  pose proof (λ x, cleanOldBackups_only_beyond r w x Hmax0) as Honly.
  destruct (cleanOldBackups_run r w) as (res & w' & ks & Hrun & _).
  rewrite Hrun in Hsurvives, Honly. simpl in Hsurvives, Honly.
  exists res, w'. split; [done|]. split; [done|].
  split; [intros x; apply Honly|]. split; [intros x; apply Honly|]. intros Hall.
  assert (has_object_store w = true) as Hstore.
  { eapply has_object_store_elem, Hnewest. }
  destruct (cleanOldBackups_exact r w Hmax0 Hall Hstore) as (w'' & Hrun' & Hkept & Hgone).
  rewrite Hrun in Hrun'. injection Hrun' as -> <-. cbv zeta in *.
  set (n := Z.to_nat (maxBackups r)) in *.
  exists (take n (Array_sort by_timestamp_desc (getAll (backups w)))),
         (drop n (Array_sort by_timestamp_desc (getAll (backups w)))).
  do 3 (split; [done|]). split; [by rewrite take_drop, Array_sort_perm|].
  split; [done|]. split; [done|]. split; [|split].
  - by rewrite length_take, Array_sort_length, length_getAll.
  - intros k d Hk Hd.
    pose proof (Array_sort_desc (getAll (backups w))) as Hs.
    rewrite <- (take_drop n (Array_sort by_timestamp_desc (getAll (backups w)))) in Hs.
    by apply (StronglySorted_app_1_elem_of _ _ _ k d) in Hs.
  - by rewrite <- Hkept.
Qed.

End Retention.

(** ** Creating a snapshot *)
Section Create.
Context `{Platform}.

(** What one call of [createBackup] does, by how the store write and the
    write of the recovery state end. *)
Lemma storeBackup_result_Ok w :
  storeBackup_result w = Ok tt ↔ hd IdbOk (idb w) = IdbOk ∧ database w ≠ NoObjectStore.
Proof.
  unfold storeBackup_result.
  destruct (hd IdbOk (idb w)), (database w); intuition congruence.
Qed.

Lemma storeBackup_result_all_ok w :
  Forall (λ o, o = IdbOk) (idb w) → database w ≠ NoObjectStore →
  storeBackup_result w = Ok tt.
Proof.
  intros Hall Hdb. apply storeBackup_result_Ok. split; [|done].
  destruct (idb w); [done|]. by apply Forall_cons_1 in Hall as [-> _].
Qed.

Lemma storeBackup_result_Throw w e :
  storeBackup_result w = Throw e ↔
  e = StorageError ∧
  (hd IdbOk (idb w) = IdbOpenError ∨
   hd IdbOk (idb w) = IdbRequestError ∧ database w ≠ NoObjectStore).
Proof.
  unfold storeBackup_result.
  destruct (hd IdbOk (idb w)), (database w); intuition congruence.
Qed.

Lemma storeBackup_run backup r w :
  ∃ w', idb w' = tail (idb w) ∧
    storeBackup backup (r, w) = (storeBackup_result w, (r, w')) ∧
    match storeBackup_result w with
    | Ok _ =>
        backups w' = <[id backup := row_of backup]> (backups w) ∧
        has_object_store w' = true ∧
        put_log w' = backup :: put_log w
    | Throw _ => backups w' = backups w ∧ put_log w' = put_log w
    | Pending => database w' = database w ∧ put_log w' = put_log w
    end.
Proof.
  unfold storeBackup, storeBackup_result, open_database, backups, has_object_store. run_M.
  destruct (hd IdbOk (idb w)), (database w);
    eexists; (split; [|split; [reflexivity|]]); done.
Qed.

(** What one call of [createBackup] does, by how the store write and the
    write of the recovery state end. *)
Lemma createBackup_run data r w :
  ∃ res r' w' b,
    createBackup data (r, w) = (res, (r', w')) ∧
    id b = "backup_" +:+ pretty (now w + hd 0 (clock w)) ∧
    content b = JSON_stringify data ∧
    timestamp b = now w + hd 0 (clock w) + hd 0 (tail (clock w)) ∧
    version b = backupCount (recoveryState r) + 1 ∧
    checksum b = generateChecksum (JSON_stringify data) ∧
    timers w' = timers w ∧ next_timer w' = next_timer w ∧
    match storeBackup_result w with
    | Ok _ =>
        r' = bump r ∧ put_log w' = b :: put_log w ∧
        if hd false (quota w) then
          res = Throw QuotaExceededError ∧
          backups w' = <[id b := row_of b]> (backups w) ∧
          localStorage w' = localStorage w
        else
          ∃ w3, cleanOldBackups (bump r, w3) = (res, (bump r, w')) ∧
                backups w3 = <[id b := row_of b]> (backups w) ∧
                has_object_store w3 = true ∧
                idb w3 = tail (idb w) ∧
                localStorage w' =
                  <[recovery_state_key :=
                      JSON_stringify (RecoveryState_json (recoveryState (bump r)))]>
                    (localStorage w)
    | Throw _ =>
        res = Throw StorageError ∧ r' = r ∧ put_log w' = put_log w ∧
        backups w' = backups w ∧ localStorage w' = localStorage w
    | Pending =>
        res = Pending ∧ r' = r ∧ put_log w' = put_log w ∧
        database w' = database w ∧ localStorage w' = localStorage w
    end.
Proof.
  unfold createBackup, storeBackup, updateRecoveryState, storeBackup_result.
  unfold open_database, backups, has_object_store. run_M.
  unfold localStorage_setItem. simpl.
  set (b := {| id := "backup_" +:+ pretty (now w + hd 0 (clock w));
               content := JSON_stringify data;
               timestamp := now w + hd 0 (clock w) + hd 0 (tail (clock w));
               version := backupCount (recoveryState r) + 1;
               checksum := generateChecksum (JSON_stringify data) |}).
  destruct (hd IdbOk (idb w)) eqn:Hidb, (database w) eqn:Hdb; simpl;
    try (eexists _, _, _, b; split; [reflexivity|]; by repeat split).
  all: destruct (hd false (quota w)) eqn:Hq; simpl;
    try (eexists _, _, _, b; split; [reflexivity|]; by repeat split).
  all: match goal with |- context [cleanOldBackups (?r0, ?w0)] => set (w3 := w0) end;
    destruct (cleanOldBackups_run (bump r) w3)
      as (res & w' & ks & Hrun & Hres & Hfr & _);
    fold (bump r); rewrite Hrun;
    destruct Hfr as (_ & _ & Hls & _ & _ & Hlog & _ & _ & Htm & Hnt & _);
    exists res, (bump r), w', b;
    (split; [by destruct Hres as [-> | ->]|]);
    do 5 (split; [done|]); (split; [done|]); (split; [done|]);
    (split; [done|]); (split; [done|]); exists w3; by repeat split.
Qed.

Lemma verifyBackup_run backup (s : ReliabilityService * World) :
  verifyBackup backup s
  = (Ok (String.eqb (generateChecksum (content backup)) (checksum backup)), s).
Proof. done. Qed.

Lemma storeBackup_result_fails w :
  hd IdbOk (idb w) ≠ IdbOk →
  database w ≠ NoObjectStore ∨ hd IdbOk (idb w) = IdbOpenError →
  storeBackup_result w = Throw StorageError.
Proof.
  unfold storeBackup_result.
  destruct (hd IdbOk (idb w)), (database w); intuition congruence.
Qed.

(** [C10] A snapshot whose store write fails.  Whenever the next IndexedDB
    operation is scheduled to fail, [createBackup] leaves every field of
    the service as it was, the recovery state with its backup count,
    last-saved time and unsaved flag included; the store, [localStorage]
    and the write log are untouched too.  On a database that [storeBackup]
    can write to (it has the object store, or does not exist yet), or with
    the failure in the [open] request itself, [storeBackup], which runs
    that operation, rejects with the storage error and [createBackup]
    rejects with that same error.  In the case that is left, an [open] that
    succeeds on a database without the object store, nothing is raised: the
    promise is never settled. *)
Theorem createBackup_store_failure data r w :
  hd IdbOk (idb w) ≠ IdbOk →
  ∃ w',
    (∀ backup r0 w0, idb w0 = idb w →
       database w0 ≠ NoObjectStore ∨ hd IdbOk (idb w0) = IdbOpenError →
       fst (storeBackup backup (r0, w0)) = Throw StorageError) ∧
    snd (createBackup data (r, w)) = (r, w') ∧
    (database w ≠ NoObjectStore ∨ hd IdbOk (idb w) = IdbOpenError →
     createBackup data (r, w) = (Throw StorageError, (r, w'))) ∧
    (database w = NoObjectStore → hd IdbOk (idb w) = IdbRequestError →
     createBackup data (r, w) = (Pending, (r, w'))) ∧
    recoveryState (fst (snd (createBackup data (r, w)))) = recoveryState r ∧
    backups w' = backups w ∧ localStorage w' = localStorage w ∧
    put_log w' = put_log w.
Proof.
  intros Hfail.
  destruct (createBackup_run data r w)
    as (res & r' & w' & b & Hrun & _ & _ & _ & _ & _ & _ & _ & Hcase).
  exists w'. split.
  { intros backup r0 w0 Hsame Hdb0.
    destruct (storeBackup_run backup r0 w0) as (w1 & _ & -> & _).
    apply storeBackup_result_fails; [by rewrite Hsame|done]. }
  rewrite Hrun. simpl.
  assert (r' = r ∧ backups w' = backups w ∧ localStorage w' = localStorage w ∧
          put_log w' = put_log w ∧
          (storeBackup_result w = Throw StorageError → res = Throw StorageError) ∧
          (storeBackup_result w = Pending → res = Pending)) as (-> & ? & ? & ? & Hthrow & Hpend).
  { destruct (storeBackup_result w) as [[]|e|] eqn:Hres.
    - apply storeBackup_result_Ok in Hres as [? _]. done.
    - destruct Hcase as (-> & -> & ? & ? & ?). by repeat split.
    - destruct Hcase as (-> & -> & ? & Hdb & ?). repeat split; try done.
      unfold backups. by rewrite Hdb. }
  split; [done|]. split.
  { intros Hdb. by rewrite (Hthrow (storeBackup_result_fails w Hfail Hdb)). }
  split; [|done].
  intros Hdb Hreq. rewrite Hpend; [done|].
  unfold storeBackup_result. by rewrite Hdb, Hreq.
Qed.

(** The counter moves exactly when a snapshot is written. *)
Lemma createBackup_counts data r w :
  let s' := snd (createBackup data (r, w)) in
  (put_log (snd s') = put_log w ∧ fst s' = r) ∨
  (∃ b, put_log (snd s') = b :: put_log w ∧ fst s' = bump r ∧
        version b = backupCount (recoveryState r) + 1).
Proof.
  destruct (createBackup_run data r w)
    as (res & r' & w' & b & Hrun & _ & _ & _ & Hv & _ & _ & _ & Hcase).
  rewrite Hrun. simpl.
  destruct (storeBackup_result w) as [[]|e|].
  - right. exists b. by destruct Hcase as (-> & -> & _).
  - left. by destruct Hcase as (_ & -> & -> & _).
  - left. by destruct Hcase as (_ & -> & -> & _).
Qed.

(** [C4] A snapshot verifies right after its creation.  When [createBackup]
    returns, it has written one snapshot [b]: its payload is the serialized
    data, its checksum is the digest of that payload, and [verifyBackup]
    answers true on it in every state; if the store still holds a record
    under its id, it is [b] itself; and [verifyBackup] stays true on any
    record with this payload and this checksum.  [createBackup] does return
    when no IndexedDB operation fails, on a database that has the object
    store or does not exist yet, and [localStorage] takes the recovery
    state. *)
Theorem createBackup_then_verify data r w :
  ∃ res r' w',
    createBackup data (r, w) = (res, (r', w')) ∧
    (Forall (λ o, o = IdbOk) (idb w) → database w ≠ NoObjectStore →
     hd false (quota w) = false → res = Ok tt) ∧
    (res = Ok tt →
     ∃ b, put_log w' = b :: put_log w ∧
          content b = JSON_stringify data ∧
          checksum b = generateChecksum (content b) ∧
          (∀ s, verifyBackup b s = (Ok true, s)) ∧
          (∀ b', b' ∈ getAll (backups w') → id b' = id b → b' = b) ∧
          (∀ b' s, content b' = content b → checksum b' = checksum b →
                   verifyBackup b' s = (Ok true, s))).
Proof.
  destruct (createBackup_run data r w)
    as (res & r' & w' & b & Hrun & _ & Hc & _ & _ & Hsum & _ & _ & Hcase).
  exists res, r', w'. split; [done|]. split.
  { intros Hall Hdb Hq. rewrite (storeBackup_result_all_ok w Hall Hdb) in Hcase.
    destruct Hcase as (_ & _ & Hcase). rewrite Hq in Hcase.
    destruct Hcase as (w3 & Hclean & _ & Hst3 & Hidb3 & _).
    destruct (cleanOldBackups_run (bump r) w3)
      as (res4 & w4 & ks & Hrun4 & _ & _ & _ & _ & _ & Hok).
    rewrite Hclean in Hrun4. injection Hrun4 as <- <-.
    apply Hok; [|done]. rewrite Hidb3. destruct (idb w); [done|]. by eapply Forall_cons_1. }
  intros ->.
  destruct (storeBackup_result w) as [[]|e|]; [|by destruct Hcase..].
  destruct Hcase as (-> & Hlog & Hcase).
  destruct (hd false (quota w)); [by destruct Hcase|].
  destruct Hcase as (w3 & Hclean & Hb3 & _).
  destruct (cleanOldBackups_run (bump r) w3)
    as (res & w4 & ks & Hrun4 & _ & _ & _ & _ & Hbs & _).
  rewrite Hclean in Hrun4. injection Hrun4 as <- <-.
  exists b. split; [done|]. split; [done|]. split; [by rewrite Hsum, Hc|].
  assert (∀ b' s, content b' = content b → checksum b' = checksum b →
                  verifyBackup b' s = (Ok true, s)) as Hstable.
  { intros b' s Hc' Hs'. rewrite verifyBackup_run, Hc', Hs', Hsum, Hc.
    by rewrite String.eqb_refl. }
  split; [intros s; by apply Hstable|]. split; [|done].
  intros b' Hin Hid. apply elem_of_getAll in Hin.
  rewrite Hbs, lookup_foldr_delete_Some, Hb3, Hid, lookup_insert_eq in Hin.
  destruct Hin as [_ Hrow]. destruct b, b'; simpl in *. by simplify_eq.
Qed.

End Create.

(** ** Creation followed by retention *)
Section CreateThenPrune.
Context `{Platform}.

(** A snapshot created later than everything stored is the strictly newest
    of the store when [createBackup] returns. *)
Lemma createBackup_newest_stays data r w :
  1 ≤ maxBackups r →
  fst (createBackup data (r, w)) = Ok tt →
  (∀ b', b' ∈ getAll (backups w) →
         timestamp b' < now w + hd 0 (clock w) + hd 0 (tail (clock w))) →
  ∃ b, put_log (snd (snd (createBackup data (r, w)))) = b :: put_log w ∧
       content b = JSON_stringify data ∧
       checksum b = generateChecksum (content b) ∧
       strictly_newest b (getAll (backups (snd (snd (createBackup data (r, w)))))).
Proof.
  intros Hmax Hok Hlater.
  destruct (createBackup_run data r w)
    as (res & r' & w' & b & Hrun & _ & Hc & Hts & _ & Hsum & _ & _ & Hcase).
  rewrite Hrun in *. simpl in *. subst res.
  destruct (storeBackup_result w) as [[]|e|]; [|by destruct Hcase..].
  destruct Hcase as (-> & Hlog & Hcase).
  destruct (hd false (quota w)); [by destruct Hcase|].
  destruct Hcase as (w3 & Hclean & Hb3 & _).
  exists b. split; [done|]. split; [done|]. split; [by rewrite Hsum, Hc|].
  assert (∀ b', b' ∈ getAll (backups w3) → b' ≠ b → timestamp b' < timestamp b) as Hold.
  { intros b' Hb' Hne. rewrite Hts. apply Hlater.
    apply elem_of_getAll in Hb'. apply elem_of_getAll.
    rewrite Hb3 in Hb'. apply lookup_insert_Some in Hb' as [[Hid Hrow]|[_ Hb']]; [|done].
    destruct Hne. destruct b, b'; simpl in *. by simplify_eq. }
  assert (strictly_newest b (getAll (backups w3))) as Hnewest.
  { split; [|done]. apply elem_of_getAll. by rewrite Hb3, lookup_insert_eq. }
  pose proof (cleanOldBackups_newest_survives (bump r) w3 b Hmax Hnewest) as Hin.
  pose proof (λ x, proj1 (cleanOldBackups_only_beyond (bump r) w3 x ltac:(simpl; lia)))
    as Hsub.
  rewrite Hclean in Hin, Hsub. simpl in Hin, Hsub.
  split; [done|]. intros b' Hb'. apply Hold. by apply Hsub.
Qed.

(** [X5] The retention policy runs inside [createBackup], right after the
    write: a snapshot created later than everything stored is still stored
    when [createBackup] returns, for any limit of at least one snapshot. *)
Theorem createBackup_keeps_created data r w :
  1 ≤ maxBackups r →
  fst (createBackup data (r, w)) = Ok tt →
  (∀ b', b' ∈ getAll (backups w) →
         timestamp b' < now w + hd 0 (clock w) + hd 0 (tail (clock w))) →
  ∃ b, put_log (snd (snd (createBackup data (r, w)))) = b :: put_log w ∧
       b ∈ getAll (backups (snd (snd (createBackup data (r, w))))).
Proof.
  intros Hmax Hok Hlater.
  destruct (createBackup_newest_stays data r w Hmax Hok Hlater)
    as (b & Hlog & _ & _ & [Hin _]).
  by exists b.
Qed.

End CreateThenPrune.
Section Recovery.
Context `{Platform}.

Lemma recoverFromBackup_run backup (s : ReliabilityService * World) :
  recoverFromBackup backup s = (restore backup, s).
Proof.
  unfold recoverFromBackup, restore. run_M.
  destruct backup as [b|]; [|done].
  destruct (JSON_parse (content b)) as [d|]; [|done].
  by destruct (validateRecoveredData d).
Qed.

(** [recoverFromCrash] as a function of how the read of the store ends and
    of the snapshots in most-recent-first order. *)
Lemma recoverFromCrash_run r w :
  ∃ w', only_idb_changes w w' ∧ backups w' = backups w ∧ idb w' = tail (idb w) ∧
    has_object_store w' = has_object_store w ∧
    database w' = match hd IdbOk (idb w) with
                  | IdbOpenError => database w
                  | _ => opened (database w)
                  end ∧
    recoverFromCrash (r, w) =
      (match hd IdbOk (idb w), has_object_store w with
       | IdbOpenError, _ => Ok JNull
       | _, false => Pending
       | IdbRequestError, true => Ok JNull
       | IdbOk, true =>
           match Array_sort by_timestamp_desc (getAll (backups w)) with
           | [] => Ok JNull
           | latest :: older =>
               if verifies latest then restore (Some latest) else restore (head older)
           end
       end, (r, w')).
Proof.
  destruct (getBackups_run r w) as (w1 & Hfr & Hidb & Hbs & Hst & Hdb & Hrun).
  exists w1. do 5 (split; [done|]).
  unfold recoverFromCrash. unfold mbind, M_bind at 1. unfold try_catch.
  unfold mbind, M_bind at 1. rewrite Hrun. unfold getBackups_result.
  destruct (hd IdbOk (idb w)), (has_object_store w); try done.
  pose proof (Array_sort_length by_timestamp_desc (getAll (backups w))) as Hlen.
  destruct (Z.eqb_spec (Z.of_nat (length (getAll (backups w)))) 0) as [H0|Hn0].
  - destruct (Array_sort by_timestamp_desc (getAll (backups w))); [done|].
    simpl in Hlen. lia.
  - destruct (Array_sort by_timestamp_desc (getAll (backups w))) as [|latest older] eqn:Hs.
    { simpl in Hlen. lia. }
    unfold mbind, M_bind. rewrite verifyBackup_run. fold (verifies latest).
    destruct (verifies latest); simpl; rewrite recoverFromBackup_run; [done|].
    by destruct older.
Qed.




End Recovery.

(** ** What each method touches *)
Section Footprints.
Context `{Platform}.

Lemma createBackup_footprint data s :
  log_step s (snd (createBackup data s)) ∧ timers_kept s (snd (createBackup data s)).
Proof.
  destruct s as [r w].
  destruct (createBackup_run data r w)
    as (res & r' & w' & b & Hrun & _ & _ & _ & Hv & _ & Htm & _ & Hcase).
  rewrite Hrun. unfold log_step, timers_kept. simpl.
  destruct (storeBackup_result w) as [[]|e|].
  - destruct Hcase as (-> & Hlog & _). split; [right; by exists b|done].
  - destruct Hcase as (_ & -> & Hlog & _). split; [by left|done].
  - destruct Hcase as (_ & -> & Hlog & _). split; [by left|done].
Qed.

Lemma autoBackupTick_run d s :
  autoBackupTick d s =
    match d with
    | Ok data =>
        match createBackup data s with
        | (Ok _, (r1, w1)) =>
            let '(t, w2) := Date_now w1 in
            (match t with Ok _ => Ok tt | Throw _ => Ok tt | Pending => Pending end,
             (set_recoveryState
                (mkRecoveryState (now w2) false (backupCount (recoveryState r1))
                                 (crashDetected (recoveryState r1))) r1, w2))
        | (Throw _, s1) => (Ok tt, s1)
        | (Pending, s1) => (Pending, s1)
        end
    | Throw _ => (Ok tt, s)
    | Pending => (Pending, s)
    end.
Proof.
  unfold autoBackupTick, try_catch, settle. unfold mbind, M_bind at 1.
  destruct d as [data| |]; [|done..].
  unfold mbind, M_bind at 1.
  by destruct (createBackup data s) as [[[]| |] [r1 w1]].
Qed.

Lemma autoBackupTick_footprint d s :
  log_step s (snd (autoBackupTick d s)) ∧ timers_kept s (snd (autoBackupTick d s)).
Proof.
  rewrite autoBackupTick_run.
  destruct d as [data| |]; try (split; [by left|done]).
  pose proof (createBackup_footprint data s) as [Hlog Htm].
  by destruct (createBackup data s) as [[[]| |] [r1 w1]].
Qed.

Lemma recoverFromCrash_footprint s :
  log_step s (snd (recoverFromCrash s)) ∧ timers_kept s (snd (recoverFromCrash s)) ∧
  fst (snd (recoverFromCrash s)) = fst s ∧
  localStorage (snd (snd (recoverFromCrash s))) = localStorage (snd s) ∧
  quota (snd (snd (recoverFromCrash s))) = quota (snd s).
Proof.
  destruct s as [r w].
  destruct (recoverFromCrash_run r w) as (w' & Hfr & _ & _ & _ & _ & ->). simpl.
  destruct Hfr as (_ & _ & Hls & Hq & _ & Hlog & _ & _ & Htm & _).
  split; [by left|]. by repeat split.
Qed.

Lemma initializeRecovery_run r w :
  ∃ res r' w',
    initializeRecovery (r, w) = (res, (r', w')) ∧
    log_step (r, w) (r', w') ∧ timers_kept (r, w) (r', w') ∧
    crashDetected (recoveryState r')
      = truthy_string (localStorage w !! crash_flag) || crashDetected (recoveryState r) ∧
    match res with
    | Ok _ => hd false (quota w) = false ∧
              localStorage w' = <[crash_flag := "true"]> (localStorage w)
    | Throw e => hd false (quota w) = true ∧ localStorage w' = localStorage w
    | Pending => False
    end.
Proof.
  unfold initializeRecovery. unfold mbind, M_bind at 1. unfold world at 1.
  unfold localStorage_getItem at 1. simpl.
  destruct (truthy_string (localStorage w !! crash_flag)) eqn:Hflag.
  - unfold mbind, M_bind at 1. unfold mbind, M_bind at 1.
    unfold set_crashDetected at 1. run_M.
    match goal with |- context [recoverFromCrash ?s0] =>
      pose proof (recoverFromCrash_footprint s0) as (Hlog & Htm & Hr & Hls & Hq);
      destruct (recoverFromCrash s0) as [res0 [r1 w1]] end.
    simpl in *. subst r1. unfold localStorage_setItem. rewrite Hq, Hls.
    destruct Htm as [Htm Hbt]. simpl in *.
    destruct (hd false (quota w)); eexists _, _, _; (split; [reflexivity|]); simpl;
      (split; [exact Hlog|]); by repeat split.
  - run_M. unfold localStorage_setItem.
    destruct (hd false (quota w)); eexists _, _, _; (split; [reflexivity|]); simpl;
      (split; [by left|]); by repeat split.
Qed.

End Footprints.

(** ** Sessions *)
Section SessionFacts.
Context `{Platform}.

Lemma step_log op s : log_step s (step op s).
Proof.
  destruct op; simpl.
  - destruct s as [r w].
    destruct (initializeRecovery_run r w) as (res & r' & w' & -> & Hlog & _). done.
  - destruct s as [r w]. unfold startAutoBackup, stopAutoBackup. run_M.
    by destruct (backupTimer r); left.
  - destruct s as [r w]. unfold stopAutoBackup. run_M.
    by destruct (backupTimer r); left.
  - destruct s as [r w]. unfold fire. run_M.
    destruct (timers w !! t) as [[[] ms]|]; try by left.
    apply (autoBackupTick_footprint _ (r, w)).
  - apply createBackup_footprint.
  - destruct s as [r w]. unfold markUnsavedChanges, updateRecoveryState. run_M.
    unfold localStorage_setItem. by destruct (hd false (quota w)); left.
  - apply recoverFromCrash_footprint.
  - destruct s as [r w]. unfold cleanup, stopAutoBackup. run_M.
    by destruct (backupTimer r); left.
  - destruct s as [r w]. unfold beforeunload. run_M.
    by destruct (unsavedChanges (recoveryState r)); left.
  - by left.
  - by left.
Qed.

Lemma createBackup_ok_writes data s :
  fst (createBackup data s) = Ok tt →
  ∃ b, put_log (snd (snd (createBackup data s))) = b :: put_log (snd s) ∧
       version b = count s + 1 ∧
       count (snd (createBackup data s)) = count s + 1.
Proof.
  destruct s as [r w]. intros Hok.
  destruct (createBackup_run data r w)
    as (res & r' & w' & b & Hrun & _ & _ & _ & Hv & _ & _ & _ & Hcase).
  rewrite Hrun in *. simpl in Hok. subst res.
  destruct (storeBackup_result w) as [[]|e|]; [|by destruct Hcase..].
  destruct Hcase as (-> & Hlog & _). by exists b.
Qed.

Lemma session_log ops w :
  let s := session ops (new_ReliabilityService, w) in
  ∃ news,
    put_log (snd s) = (news ++ put_log w)%list ∧
    count s = Z.of_nat (length news) ∧
    version <$> news = Z.of_nat <$> reverse (seq 1 (length news)).
Proof.
  simpl. induction ops as [|op ops IH] using rev_ind.
  - by exists [].
  - unfold session in *. rewrite foldl_snoc.
    set (s := foldl (λ s op, step op s) (new_ReliabilityService, w) ops) in *.
    destruct IH as (news & Hlog & Hcount & Hvs).
    destruct (step_log op s) as [[Hl Hc]|(b & Hl & Hc & Hv)].
    + exists news. by rewrite Hl, Hc.
    + exists (b :: news). split; [by rewrite Hl, Hlog|]. split.
      * rewrite Hc, Hcount, length_cons. lia.
      * rewrite length_cons, seq_S, reverse_app, fmap_cons, Hv, Hcount, Hvs.
        simpl. f_equal. lia.
Qed.

(** [C2] Version numbers over a session.  A new service on any browser
    state, after any events: the snapshots written since the service was
    created carry the versions 1, 2, 3, ... in the order they were written
    (the log is newest first), the counter of the service is their number,
    and a further [createBackup] that returns has written one more snapshot,
    whose version is that counter plus one. *)
Theorem session_versions ops w data :
  let s := session ops (new_ReliabilityService, w) in
  let s' := snd (createBackup data s) in
  ∃ news,
    put_log (snd s) = (news ++ put_log w)%list ∧
    count s = Z.of_nat (length news) ∧
    version <$> news = Z.of_nat <$> reverse (seq 1 (length news)) ∧
    (fst (createBackup data s) = Ok tt →
     ∃ b, put_log (snd s') = (b :: news ++ put_log w)%list ∧
          version b = Z.of_nat (length news) + 1 ∧
          count s' = count s + 1).
Proof.
  simpl. destruct (session_log ops w) as (news & Hlog & Hcount & Hvs).
  exists news. do 3 (split; [done|]). intros Hok.
  destruct (createBackup_ok_writes _ _ Hok) as (b & Hl & Hv & Hc).
  exists b. split; [by rewrite Hl, Hlog|]. split; [by rewrite Hv, Hcount|done].
Qed.

End SessionFacts.

(** ** The auto-backup timer *)
Section Timers.
Context `{Platform}.

Lemma timers_kept_at_most_one s s' :
  timers_kept s s' → at_most_one_timer s → at_most_one_timer s'.
Proof. unfold timers_kept, at_most_one_timer. intros [-> ->]. done. Qed.

(** After [stopAutoBackup], on a state with at most one timer: none. *)
Lemma stopAutoBackup_run r w :
  ∃ w', stopAutoBackup (r, w) = (Ok tt, (set_backupTimer None r, w')) ∧
        timers w' = match backupTimer r with
                    | Some t => delete t (timers w)
                    | None => timers w
                    end ∧
        next_timer w' = next_timer w ∧ localStorage w' = localStorage w ∧
        put_log w' = put_log w ∧ backups w' = backups w.
Proof.
  unfold stopAutoBackup. run_M. destruct r as [bi mb [t|] rs]; simpl; by eexists.
Qed.

Lemma stop_clears r w :
  at_most_one_timer (r, w) →
  no_auto_timer (snd (snd (stopAutoBackup (r, w)))).
Proof.
  intros Hone. destruct (stopAutoBackup_run r w) as (w' & -> & Htm & _). simpl.
  intros t ms Hin. rewrite Htm in Hin.
  destruct (backupTimer r) as [t0|] eqn:Hbt.
  - apply lookup_delete_Some in Hin as [Hne Hin].
    apply Hone in Hin. simpl in Hin. congruence.
  - apply Hone in Hin. simpl in Hin. congruence.
Qed.

Lemma startAutoBackup_run r w :
  ∃ w1 w',
    stopAutoBackup (r, w) = (Ok tt, (set_backupTimer None r, w1)) ∧
    startAutoBackup (r, w) = (Ok tt, (set_backupTimer (Some (fresh_timer w1)) r, w')) ∧
    timers w' = <[fresh_timer w1 := (AutoBackupTick, backupInterval r)]> (timers w1).
Proof.
  destruct (stopAutoBackup_run r w) as (w1 & Hstop & _).
  exists w1. unfold startAutoBackup. unfold mbind, M_bind at 1. rewrite Hstop.
  run_M. by eexists.
Qed.

Lemma step_at_most_one op s : at_most_one_timer s → at_most_one_timer (step op s).
Proof.
  intros Hone. destruct op; simpl.
  - destruct s as [r w].
    destruct (initializeRecovery_run r w) as (res & r' & w' & Hrun & _ & Htm & _).
    rewrite Hrun. by eapply timers_kept_at_most_one.
  - destruct s as [r w]. pose proof (stop_clears r w Hone) as Hnone.
    destruct (startAutoBackup_run r w) as (w1 & w' & Hstop & -> & Htm).
    rewrite Hstop in Hnone. simpl in *.
    intros t ms Hin. simpl in *. rewrite Htm in Hin.
    apply lookup_insert_Some in Hin as [[-> _]|[_ Hin]]; [done|].
    by apply Hnone in Hin.
  - destruct s as [r w]. pose proof (stop_clears r w Hone) as Hnone.
    intros t ms Hin. by apply Hnone in Hin.
  - destruct s as [r w]. unfold fire. run_M.
    destruct (timers w !! t) as [[[] ms]|]; try done.
    eapply timers_kept_at_most_one; [|done]. apply (autoBackupTick_footprint _ (r, w)).
  - eapply timers_kept_at_most_one; [|done]. apply createBackup_footprint.
  - destruct s as [r w]. unfold markUnsavedChanges, updateRecoveryState. run_M.
    unfold localStorage_setItem. by destruct (hd false (quota w)).
  - eapply timers_kept_at_most_one; [|done]. apply recoverFromCrash_footprint.
  - destruct s as [r w]. pose proof (stop_clears r w Hone) as Hnone.
    unfold cleanup. unfold mbind, M_bind at 1.
    destruct (stopAutoBackup_run r w) as (w' & Hstop & _).
    rewrite Hstop in *. run_M. intros t ms Hin. by apply Hnone in Hin.
  - destruct s as [r w]. unfold beforeunload. run_M.
    by destruct (unsavedChanges (recoveryState r)).
  - destruct s as [r w]. intros t ms' Hin. simpl in *.
    apply lookup_insert_Some in Hin as [[_ ?]|[_ Hin]]; [done|]. by apply Hone in Hin.
  - destruct s as [r w]. intros t' ms Hin. simpl in *.
    apply lookup_delete_Some in Hin as [_ Hin]. by apply Hone in Hin.
Qed.

Lemma session_at_most_one ops s :
  at_most_one_timer s → at_most_one_timer (session ops s).
Proof.
  revert s. induction ops as [|op ops IH]; intros s Hone; [done|].
  simpl. by apply IH, step_at_most_one.
Qed.

(** [C9] One timer per scheduler.  From a new service on a browser with no
    auto-backup timer, after any events: at most one auto-backup timer is
    active, and it is the one the service holds.  After [startAutoBackup]
    exactly one is active: the one it has just installed, whatever was
    running before having been cleared first.  After [stopAutoBackup] none
    is active and the service holds none, so that the browser firing any
    timer runs no tick: the state is unchanged. *)
Theorem at_most_one_auto_backup_timer ops w :
  no_auto_timer w →
  let s := session ops (new_ReliabilityService, w) in
  at_most_one_timer s ∧
  (let s' := step StartAutoBackup s in
   ∃ t, backupTimer (fst s') = Some t ∧
        timers (snd s') !! t = Some (AutoBackupTick, backupInterval (fst s)) ∧
        (∀ t' ms, timers (snd s') !! t' = Some (AutoBackupTick, ms) → t' = t) ∧
        (∀ t0, backupTimer (fst s) = Some t0 → t0 ≠ t → timers (snd s') !! t0 = None)) ∧
  (let s' := step StopAutoBackup s in
   backupTimer (fst s') = None ∧
   no_auto_timer (snd s') ∧
   (∀ t0, backupTimer (fst s) = Some t0 → timers (snd s') !! t0 = None) ∧
   (∀ t getDataCallback, fire t getDataCallback s' = (Ok tt, s'))).
Proof.
  intros Hnone. simpl.
  assert (at_most_one_timer (session ops (new_ReliabilityService, w))) as Hone.
  { apply session_at_most_one. intros t ms Hin. by apply Hnone in Hin. }
  destruct (session ops (new_ReliabilityService, w)) as [r w0].
  split; [done|]. split.
  - pose proof (stop_clears r w0 Hone) as Hclear.
    destruct (startAutoBackup_run r w0) as (w1 & w' & Hstop & -> & Htm).
    destruct (stopAutoBackup_run r w0) as (w1' & Hstop' & Htm1 & _).
    rewrite Hstop in Hstop'. injection Hstop' as <-.
    rewrite Hstop in Hclear. simpl in *.
    exists (fresh_timer w1). split; [done|]. rewrite Htm.
    split; [by rewrite lookup_insert_eq|]. split.
    + intros t' ms Hin. apply lookup_insert_Some in Hin as [[-> _]|[_ Hin]]; [done|].
      by apply Hclear in Hin.
    + intros t0 Hbt Hne. rewrite lookup_insert_ne by done.
      rewrite Htm1, Hbt. apply lookup_delete_eq.
  - pose proof (stop_clears r w0 Hone) as Hclear.
    destruct (stopAutoBackup_run r w0) as (w' & Hstop & Htm & _).
    rewrite Hstop in *. simpl in *. split; [done|]. split; [done|]. split.
    + intros t0 Hbt. rewrite Htm, Hbt. apply lookup_delete_eq.
    + intros t d. unfold fire. run_M.
      destruct (timers w' !! t) as [[[] ms]|] eqn:Hin; try done.
      by apply Hclear in Hin.
Qed.

End Timers.
Section CrashFlag.
Context `{Platform}.

Lemma detects_crash_iff w :
  crashDetected
    (recoveryState (fst (snd (initializeRecovery (new_ReliabilityService, w)))))
  = truthy_string (localStorage w !! crash_flag).
Proof.
  destruct (initializeRecovery_run new_ReliabilityService w)
    as (res & r' & w' & -> & _ & _ & Hcd & _).
  simpl. rewrite Hcd. simpl. by rewrite orb_false_r.
Qed.

(** [C5] The crash flag.  Once [initializeRecovery] has returned, the flag
    is in [localStorage], and a service constructed later on a browser whose
    [localStorage] still holds it finds the prior session unclean.  Once
    [cleanup], or the page's [beforeunload] event, has run after that, the
    flag is gone, and a service constructed later on such a browser finds
    the prior session clean. *)
Theorem crash_flag_round_trip r w r1 w1 :
  initializeRecovery (r, w) = (Ok tt, (r1, w1)) →
  localStorage w1 !! crash_flag = Some "true" ∧
  (∀ w2, localStorage w2 !! crash_flag = localStorage w1 !! crash_flag →
     crashDetected
       (recoveryState (fst (snd (initializeRecovery (new_ReliabilityService, w2)))))
     = true) ∧
  (∀ s, s = snd (cleanup (r1, w1)) ∨ s = snd (beforeunload (r1, w1)) →
     localStorage (snd s) !! crash_flag = None ∧
     ∀ w2, localStorage w2 !! crash_flag = localStorage (snd s) !! crash_flag →
       crashDetected
         (recoveryState (fst (snd (initializeRecovery (new_ReliabilityService, w2)))))
       = false).
Proof.
  intros Hinit.
  destruct (initializeRecovery_run r w) as (res & r' & w' & Hrun & _ & _ & _ & Hres).
  rewrite Hinit in Hrun. injection Hrun as <- <- <-. destruct Hres as [_ Hls].
  assert (localStorage w1 !! crash_flag = Some "true") as Hflag.
  { by rewrite Hls, lookup_insert_eq. }
  split; [done|]. split.
  - intros w2 Hsame. by rewrite detects_crash_iff, Hsame, Hflag.
  - intros s Hs.
    assert (localStorage (snd s) !! crash_flag = None) as Hgone.
    { destruct Hs as [-> | ->].
      - unfold cleanup. unfold mbind, M_bind at 1.
        destruct (stopAutoBackup_run r1 w1) as (w2 & -> & _). run_M.
        rewrite lookup_delete_ne by done. apply lookup_delete_eq.
      - unfold beforeunload. run_M.
        destruct (unsavedChanges (recoveryState r1)); simpl; apply lookup_delete_eq. }
    split; [done|]. intros w2 Hsame. by rewrite detects_crash_iff, Hsame, Hgone.
Qed.

End CrashFlag.

Section Cache.
Context `{Platform}.

Lemma setCache_run key v ttl p w :
  let p1 := fst (snd (setCache key v ttl (p, w))) in
  fst (setCache key v ttl (p, w)) = Ok tt ∧
  cache p1
  = <[key := mkCacheItem v (now w + hd 0 (clock w) + default 300000 ttl)]> (cache p) ∧
  cacheHits p1 = cacheHits p ∧ cacheMisses p1 = cacheMisses p.
Proof. done. Qed.

Lemma getCache_run key p w :
  let '(res, (p2, w2)) := getCache key (p, w) in
  match cache p !! key with
  | None =>
      res = Ok JNull ∧ cache p2 = cache p ∧
      cacheHits p2 = cacheHits p ∧ cacheMisses p2 = cacheMisses p + 1
  | Some item =>
      if bool_decide (now w + hd 0 (clock w) ≤ expires item) then
        res = Ok (value item) ∧ cache p2 = cache p ∧
        cacheHits p2 = cacheHits p + 1 ∧ cacheMisses p2 = cacheMisses p
      else
        res = Ok JNull ∧ cache p2 = delete key (cache p) ∧ cache p2 !! key = None ∧
        cacheHits p2 = cacheHits p ∧ cacheMisses p2 = cacheMisses p + 1
  end.
Proof.
  unfold getCache. run_M. destruct (cache p !! key) as [item|] eqn:Hitem; simpl; [|done].
  case_bool_decide as Hle.
  - destruct (Z.ltb_spec (expires item) (now w + hd 0 (clock w))); [lia|]. done.
  - destruct (Z.ltb_spec (expires item) (now w + hd 0 (clock w))); [|lia]. simpl.
    repeat split. apply lookup_delete_eq.
Qed.

(** Set, then get at once or later: the entry is served up to its expiry
    and not after. *)
Lemma setCache_getCache key v (ttl : Z) p w w' :
  let p1 := fst (snd (setCache key v (Some ttl) (p, w))) in
  let expiry := now w + hd 0 (clock w) + ttl in
  let t := now w' + hd 0 (clock w') in
  fst (getCache key (p1, w')) = Ok (if bool_decide (t ≤ expiry) then v else JNull) ∧
  cacheMisses (fst (snd (getCache key (p1, w'))))
  = cacheMisses p + (if bool_decide (t ≤ expiry) then 0 else 1).
Proof.
  pose proof (setCache_run key v (Some ttl) p w) as (_ & Hc & _ & Hm).
  cbv zeta in *.
  remember (fst (snd (setCache key v (Some ttl) (p, w)))) as p1 eqn:Hp1. clear Hp1.
  simpl in Hc.
  pose proof (getCache_run key p1 w') as Hget.
  destruct (getCache key (p1, w')) as [res [p2 w2]]. simpl.
  rewrite Hc, lookup_insert_eq in Hget. simpl in Hget.
  case_bool_decide; destruct Hget as (-> & ?); destruct_and!; split; try done; lia.
Qed.

(** [C8] The TTL cache.  [setCache] stores the value under the key with the
    expiry: the clock reading plus the TTL (five minutes when left out); the
    counters stay.  [getCache] on an absent key answers [null] and counts a
    miss.  On a present key it reads the clock: not past the expiry, it
    answers the stored value, counts a hit and leaves the cache as it is;
    strictly past it, it answers [null], counts a miss and removes the
    entry.  So a value set with a TTL is served by a later [getCache] up to
    its expiry, and is a counted miss after it. *)
Theorem ttl_cache key v ttl p w :
  (let p1 := fst (snd (setCache key v ttl (p, w))) in
   fst (setCache key v ttl (p, w)) = Ok tt ∧
   cache p1
   = <[key := mkCacheItem v (now w + hd 0 (clock w) + default 300000 ttl)]> (cache p) ∧
   cacheHits p1 = cacheHits p ∧ cacheMisses p1 = cacheMisses p ∧
   ∀ w',
     let expiry := now w + hd 0 (clock w) + default 300000 ttl in
     let t := now w' + hd 0 (clock w') in
     fst (getCache key (p1, w')) = Ok (if bool_decide (t ≤ expiry) then v else JNull) ∧
     cacheMisses (fst (snd (getCache key (p1, w'))))
     = cacheMisses p + (if bool_decide (t ≤ expiry) then 0 else 1)) ∧
  (let '(res, (p2, w2)) := getCache key (p, w) in
   match cache p !! key with
   | None =>
       res = Ok JNull ∧ cache p2 = cache p ∧
       cacheHits p2 = cacheHits p ∧ cacheMisses p2 = cacheMisses p + 1
   | Some item =>
       if bool_decide (now w + hd 0 (clock w) ≤ expires item) then
         res = Ok (value item) ∧ cache p2 = cache p ∧
         cacheHits p2 = cacheHits p + 1 ∧ cacheMisses p2 = cacheMisses p
       else
         res = Ok JNull ∧ cache p2 = delete key (cache p) ∧ cache p2 !! key = None ∧
         cacheHits p2 = cacheHits p ∧ cacheMisses p2 = cacheMisses p + 1
   end).
Proof.
  split; [|apply getCache_run].
  cbv zeta. do 4 (split; [done|]). intros w'.
  apply (setCache_getCache key v (default 300000 ttl) p w w').
Qed.

End Cache.

(** ** The sync loop and the local fallback *)
Section Sync.
Context `{Platform}.

(** The sync loop by how its first three [fetch] calls end, and what it
    leaves alone. *)
Lemma syncToServer_run data p w :
  ∃ res p' w',
    syncToServer data (p, w) = (res, (p', w')) ∧
    localStorage w' = localStorage w ∧ quota w' = quota w ∧ clock w' = clock w ∧
    files w' = files w ∧ idb w' = idb w ∧
    match attempt_error (fetch_outcome w 0), attempt_error (fetch_outcome w 1),
          attempt_error (fetch_outcome w 2) with
    | None, _, _ =>
        res = Ok tt ∧ sleeps w' = sleeps w ∧ net w' = drop 1 (net w)
    | Some _, None, _ =>
        res = Ok tt ∧ sleeps w' = 2000 :: sleeps w ∧ net w' = drop 2 (net w)
    | Some _, Some _, None =>
        res = Ok tt ∧ sleeps w' = 4000 :: 2000 :: sleeps w ∧ net w' = drop 3 (net w)
    | Some _, Some _, Some e =>
        res = Throw e ∧ sleeps w' = 4000 :: 2000 :: sleeps w ∧ net w' = drop 3 (net w)
    end.
Proof.
  unfold syncToServer, fetch_outcome. simpl sync_loop.
  unfold sync_attempt. run_M. unfold fetch_sync, setTimeout_await. simpl.
  destruct (net w) as [|o0 [|o1 [|o2 rest]]]; simpl;
    try fetch_case o0; try fetch_case o1; try fetch_case o2;
    by eexists _, _, _.
Qed.

(** [C6] The sync loop, by how its first three [fetch] calls end.  It makes
    at most three attempts.  An attempt that succeeds ends the call; after a
    first failure it waits 2000 ms, after a second one 4000 ms (the delay
    doubles), and a third failure is thrown to the caller.  So a call whose
    request fails twice and then succeeds returns after exactly two failed
    attempts, and a call whose request fails three times rejects with the
    last error.  The attempts made are the [fetch] calls consumed; the waits
    are the newest entries of [sleeps]. *)
Theorem syncToServer_retries data p w :
  ∃ res p' w',
    syncToServer data (p, w) = (res, (p', w')) ∧
    match attempt_error (fetch_outcome w 0), attempt_error (fetch_outcome w 1),
          attempt_error (fetch_outcome w 2) with
    | None, _, _ =>
        res = Ok tt ∧ sleeps w' = sleeps w ∧ net w' = drop 1 (net w)
    | Some _, None, _ =>
        res = Ok tt ∧ sleeps w' = 2000 :: sleeps w ∧ net w' = drop 2 (net w)
    | Some _, Some _, None =>
        res = Ok tt ∧ sleeps w' = 4000 :: 2000 :: sleeps w ∧ net w' = drop 3 (net w)
    | Some _, Some _, Some e =>
        res = Throw e ∧ sleeps w' = 4000 :: 2000 :: sleeps w ∧ net w' = drop 3 (net w)
    end.
Proof.
  destruct (syncToServer_run data p w) as (res & p' & w' & Hrun & _ & _ & _ & _ & _ & Hcase).
  by exists res, p', w'.
Qed.

(** The waits of the loop double, for any number of iterations: the [i]-th
    wait of a loop entered with [retries] failures behind it is
    [2 ^ (retries + i)] seconds. *)
Lemma sync_loop_delays n data retries p w :
  ∃ k, (k ≤ n)%nat ∧
    sleeps (snd (snd (sync_loop n data retries (p, w))))
    = (reverse ((λ i, 2 ^ (retries + Z.of_nat i) * 1000) <$> seq 1 k) ++ sleeps w)%list.
Proof.
  revert retries p w. induction n as [|n IH]; intros retries p w.
  - by exists 0%nat.
  - simpl. unfold try_catch.
    assert (sleeps (snd (snd (sync_attempt data (p, w)))) = sleeps w) as Hs.
    { unfold sync_attempt. run_M. unfold fetch_sync.
      destruct (hd (FetchRejects 0) (net w)) as [dt|st dt]; simpl; [done|].
      by destruct ((200 <=? st) && (st <=? 299)). }
    destruct (sync_attempt data (p, w)) as [[[]|e|] [p1 w1]]; simpl in Hs.
    + exists 0%nat. split; [lia|done].
    + destruct (maxRetries <=? retries + 1).
      * exists 0%nat. split; [lia|done].
      * unfold mbind, M_bind at 1. unfold world at 1. simpl.
        match goal with |- context [sync_loop n data (retries + 1) (?p0, ?w0)] =>
          destruct (IH (retries + 1) p0 w0) as (k & Hk & Hsl) end.
        exists (S k). split; [lia|]. rewrite Hsl. simpl sleeps. rewrite Hs.
        change (seq 1 (S k)) with (1%nat :: seq 2 k).
        rewrite <- (fmap_S_seq 1 k), fmap_cons, reverse_cons, <- list_fmap_compose.
        rewrite <- app_assoc. simpl. f_equal. f_equal.
        apply list_fmap_ext. intros _ i _. simpl. do 2 f_equal. lia.
    + exists 0%nat. split; [lia|done].
Qed.

Lemma handleAutoSaveError_run fileId content p w :
  ∃ w',
    handleAutoSaveError fileId content (p, w) = (Ok tt, (p, w')) ∧
    files w' = files w ∧
    localStorage w' =
      if hd false (quota w) then localStorage w
      else <["backup_" +:+ fileId :=
               JSON_stringify (JObj [("content", JStr content);
                                     ("timestamp", JNum (now w + hd 0 (clock w)))])]>
             (localStorage w).
Proof.
  unfold handleAutoSaveError. run_M. unfold localStorage_setItem. simpl.
  destruct (hd false (quota w)); by eexists.
Qed.



End Sync.
(** ** The statements at concrete stores and schedules *)
Section Concrete.
#[local] Existing Instance browser.


(** The three stores of the specification's example, an empty store, a
    store of one corrupted snapshot, and a browser without the database:
    there the promise never settles, the database is left without its
    object store, and a backup made after that never settles either. *)
Example recovery_cascade_examples :
  let r := new_ReliabilityService in
  fst (recoverFromCrash (r, with_backups [v1; corrupt_checksum v2; v3] blank_world))
  = Ok (project "three.ts") ∧
  fst (recoverFromCrash (r, with_backups [v1; v2; corrupt_checksum v3] blank_world))
  = Ok (project "two.ts") ∧
  fst (recoverFromCrash (r, with_backups [] blank_world)) = Ok JNull ∧
  fst (recoverFromCrash (r, with_backups [corrupt_checksum v3] blank_world))
  = Throw TypeError ∧
  fst (recoverFromCrash (r, blank_world)) = Pending ∧
  database (snd (snd (recoverFromCrash (r, blank_world)))) = NoObjectStore ∧
  fst (createBackup (project "a.ts") (snd (recoverFromCrash (r, blank_world)))) = Pending ∧
  fst (createBackup (project "a.ts") (r, blank_world)) = Ok tt.
Proof. vm_compute. by repeat split. Qed.

(** [C2] The version is not the number of stored snapshots plus one.  A new
    service on a store that already holds one snapshot stamps version 1,
    and the store then holds two snapshots of version 1.  Within one
    session, once the retention policy has pruned the store to ten
    snapshots, the next snapshot is stamped 12.  And when a call has written
    its snapshot and then rejects, [localStorage] being full, the two calls
    that return around it stamp 1 and 3. *)
Lemma version_is_not_store_count :
  (let w := with_backups [v1] (scene 5000 [1; 1] [] [] []) in
   let s' := snd (createBackup (project "two.ts") (new_ReliabilityService, w)) in
   fst (createBackup (project "two.ts") (new_ReliabilityService, w)) = Ok tt ∧
   length (getAll (backups w)) = 1%nat ∧
   version <$> put_log (snd s') = [1] ∧
   version <$> getAll (backups (snd s')) = [1; 1]) ∧
  (let w := scene 5000 (replicate 24 1) [] [] [] in
   let s11 := session (replicate 11 (CreateBackup (project "a.ts")))
                      (new_ReliabilityService, w) in
   let s12 := snd (createBackup (project "a.ts") s11) in
   fst (createBackup (project "a.ts") s11) = Ok tt ∧
   length (getAll (backups (snd s11))) = 10%nat ∧
   head (version <$> put_log (snd s12)) = Some 12) ∧
  (let w := scene 5000 (replicate 6 1) [false; true; false] [] [] in
   let c1 := createBackup (project "a.ts") (new_ReliabilityService, w) in
   let c2 := createBackup (project "b.ts") (snd c1) in
   let c3 := createBackup (project "c.ts") (snd c2) in
   fst c1 = Ok tt ∧ fst c2 = Throw QuotaExceededError ∧ fst c3 = Ok tt ∧
   head (version <$> put_log (snd (snd c1))) = Some 1 ∧
   head (version <$> put_log (snd (snd c3))) = Some 3).
Proof. vm_compute. by repeat split. Qed.

(** Three snapshots, a limit of two: the newest stays. *)
Lemma cleanOldBackups_keeps_newest_witness :
  let w := with_backups [v1; v2; v3] blank_world in
  strictly_newest v3 (getAll (backups w)) ∧
  ∃ res w',
    cleanOldBackups (keeps_two, w) = (res, (keeps_two, w')) ∧
    v3 ∈ getAll (backups w') ∧
    (∀ x, x ∈ getAll (backups w') → x ∈ getAll (backups w)) ∧
    (∀ x, x ∈ getAll (backups w) → x ∉ getAll (backups w') →
          x ∈ drop (Z.to_nat (maxBackups keeps_two))
                   (Array_sort by_timestamp_desc (getAll (backups w)))) ∧
    (Forall (λ o, o = IdbOk) (idb w) →
       ∃ kept deleted,
         res = Ok tt ∧
         kept = take (Z.to_nat (maxBackups keeps_two))
                     (Array_sort by_timestamp_desc (getAll (backups w))) ∧
         deleted = drop (Z.to_nat (maxBackups keeps_two))
                        (Array_sort by_timestamp_desc (getAll (backups w))) ∧
         kept ++ deleted ≡ₚ getAll (backups w) ∧
         getAll (backups w') ≡ₚ kept ∧
         (∀ d, d ∈ deleted → backups w' !! id d = None) ∧
         length kept = (Z.to_nat (maxBackups keeps_two) `min` size (backups w))%nat ∧
         (∀ k d, k ∈ kept → d ∈ deleted → timestamp d ≤ timestamp k) ∧
         v3 ∈ kept).
Proof.
  assert (strictly_newest v3 (getAll (backups (with_backups [v1; v2; v3] blank_world))))
    as Hnewest.
  { apply (bool_decide_unpack _). vm_compute. exact I. }
  split; [exact Hnewest|].
  apply (cleanOldBackups_keeps_newest keeps_two (with_backups [v1; v2; v3] blank_world) v3).
  - vm_compute. discriminate.
  - exact Hnewest.
Defined.

Example cleanOldBackups_three_to_two :
  let w := with_backups [v1; v2; v3] blank_world in
  id <$> getAll (backups (snd (snd (cleanOldBackups (keeps_two, w)))))
  = ["backup_2000"; "backup_3000"].
Proof. vm_compute. reflexivity. Qed.

(** A snapshot is created, verified, and still verifies from the store. *)
Example createBackup_verifies :
  let s := snd (createBackup (project "a.ts") (new_ReliabilityService, blank_world)) in
  fst (createBackup (project "a.ts") (new_ReliabilityService, blank_world)) = Ok tt ∧
  (λ b, fst (verifyBackup b s)) <$> getAll (backups (snd s)) = [Ok true] ∧
  (λ b, fst (verifyBackup (truncated b) s)) <$> getAll (backups (snd s)) = [Ok false].
Proof. vm_compute. by repeat split. Qed.

(** A first session that starts cleanly and never shuts down. *)
Lemma crash_flag_round_trip_witness :
  let s1 := snd (initializeRecovery (new_ReliabilityService, blank_world)) in
  localStorage (snd s1) !! crash_flag = Some "true" ∧
  (∀ w2, localStorage w2 !! crash_flag = localStorage (snd s1) !! crash_flag →
     crashDetected
       (recoveryState (fst (snd (initializeRecovery (new_ReliabilityService, w2)))))
     = true) ∧
  (∀ s, s = snd (cleanup s1) ∨ s = snd (beforeunload s1) →
     localStorage (snd s) !! crash_flag = None ∧
     ∀ w2, localStorage w2 !! crash_flag = localStorage (snd s) !! crash_flag →
       crashDetected
         (recoveryState (fst (snd (initializeRecovery (new_ReliabilityService, w2)))))
       = false).
Proof.
  apply (crash_flag_round_trip new_ReliabilityService blank_world
           (fst (snd (initializeRecovery (new_ReliabilityService, blank_world))))
           (snd (snd (initializeRecovery (new_ReliabilityService, blank_world))))).
  vm_compute. reflexivity.
Defined.



Example autoSave_sync_exhausted :
  let w := scene 1000 [] [] [] [FetchResponse 503 20; FetchRejects 5; FetchResponse 500 30] in
  let s := (new_PerformanceService, w) in
  fst (autoSave_try "let x = 1" "main.ts" s) = Throw (SyncFailed 500) ∧
  JSON_parse <$> (localStorage (snd (snd (autoSave "let x = 1" "main.ts" s)))
                  !! "backup_main.ts")
  = Some (Some (JObj [("content", JStr "let x = 1"); ("timestamp", JNum 7055)])) ∧
  sleeps (snd (snd (autoSave "let x = 1" "main.ts" s))) = [4000; 2000].
Proof. vm_compute. by repeat split. Qed.

(** Two failures, then a success: two waits, 2000 ms then 4000 ms, and three
    [fetch] calls. *)
Example syncToServer_third_time_lucky :
  let w := scene 0 [] [] []
             [FetchResponse 500 10; FetchRejects 10; FetchResponse 200 10;
              FetchResponse 200 10] in
  let r := syncToServer JNull (new_PerformanceService, w) in
  fst r = Ok tt ∧ sleeps (snd (snd r)) = [4000; 2000] ∧
  net (snd (snd r)) = [FetchResponse 200 10] ∧
  syncLatency (metrics (fst (snd r))) = 10.
Proof. vm_compute. by repeat split. Qed.

(** [set(k, v, 100ms)], then a read at once and a read 150 ms later. *)
Example ttl_cache_100_150 :
  let s1 := snd (setCache "k" (JStr "v") (Some 100) (new_PerformanceService, blank_world)) in
  let hit := getCache "k" s1 in
  let late := getCache "k" (fst (snd hit), scene 150 [] [] [] []) in
  fst hit = Ok (JStr "v") ∧ cacheHits (fst (snd hit)) = 1 ∧
  fst late = Ok JNull ∧ cacheMisses (fst (snd late)) = 1 ∧
  cache (fst (snd late)) !! "k" = None.
Proof. vm_compute. by repeat split. Qed.

(** Start twice, let the first timer's id fire, stop, start again. *)
Lemma at_most_one_auto_backup_timer_witness :
  let s := session [Init; StartAutoBackup; StartAutoBackup; Fire 1 (Ok (project "a.ts"));
                    StopAutoBackup; PageSetInterval 50; StartAutoBackup]
                   (new_ReliabilityService, blank_world) in
  at_most_one_timer s ∧
  (let s' := step StartAutoBackup s in
   ∃ t, backupTimer (fst s') = Some t ∧
        timers (snd s') !! t = Some (AutoBackupTick, backupInterval (fst s)) ∧
        (∀ t' ms, timers (snd s') !! t' = Some (AutoBackupTick, ms) → t' = t) ∧
        (∀ t0, backupTimer (fst s) = Some t0 → t0 ≠ t → timers (snd s') !! t0 = None)) ∧
  (let s' := step StopAutoBackup s in
   backupTimer (fst s') = None ∧
   no_auto_timer (snd s') ∧
   (∀ t0, backupTimer (fst s) = Some t0 → timers (snd s') !! t0 = None) ∧
   (∀ t getDataCallback, fire t getDataCallback s' = (Ok tt, s'))).
Proof.
  apply (at_most_one_auto_backup_timer
           [Init; StartAutoBackup; StartAutoBackup; Fire 1 (Ok (project "a.ts"));
            StopAutoBackup; PageSetInterval 50; StartAutoBackup] blank_world).
  intros t ms. simpl. rewrite lookup_empty. discriminate.
Defined.

Example timers_of_a_session :
  let s := session [Init; StartAutoBackup; StartAutoBackup; PageSetInterval 50;
                    StartAutoBackup]
                   (new_ReliabilityService, blank_world) in
  backupTimer (fst s) = Some 4%positive ∧
  map_to_list (timers (snd s))
  ≡ₚ [(3%positive, (OtherCallback, 50)); (4%positive, (AutoBackupTick, 30000))].
Proof. vm_compute. by repeat split. Qed.

(** The store write fails: nothing moves. *)
Lemma createBackup_store_failure_witness :
  let w := scene 1000 [] [] [IdbRequestError] [] in
  ∃ w',
    (∀ backup r0 w0, idb w0 = idb w →
       database w0 ≠ NoObjectStore ∨ hd IdbOk (idb w0) = IdbOpenError →
       fst (storeBackup backup (r0, w0)) = Throw StorageError) ∧
    snd (createBackup (project "a.ts") (new_ReliabilityService, w))
    = (new_ReliabilityService, w') ∧
    (database w ≠ NoObjectStore ∨ hd IdbOk (idb w) = IdbOpenError →
     createBackup (project "a.ts") (new_ReliabilityService, w)
     = (Throw StorageError, (new_ReliabilityService, w'))) ∧
    (database w = NoObjectStore → hd IdbOk (idb w) = IdbRequestError →
     createBackup (project "a.ts") (new_ReliabilityService, w)
     = (Pending, (new_ReliabilityService, w'))) ∧
    recoveryState (fst (snd (createBackup (project "a.ts") (new_ReliabilityService, w))))
    = recoveryState new_ReliabilityService ∧
    backups w' = backups w ∧ localStorage w' = localStorage w ∧
    put_log w' = put_log w.
Proof.
  apply (createBackup_store_failure (project "a.ts") new_ReliabilityService
           (scene 1000 [] [] [IdbRequestError] [])).
  simpl. discriminate.
Defined.

Example createBackup_store_failures :
  let r := new_ReliabilityService in
  fst (createBackup (project "a.ts") (r, scene 1000 [] [] [IdbRequestError] []))
  = Throw StorageError ∧
  fst (createBackup (project "a.ts") (r, scene 1000 [] [] [IdbOpenError] []))
  = Throw StorageError ∧
  fst (createBackup (project "a.ts")
         (r, with_backups [v1] (scene 1000 [] [] [IdbRequestError] [])))
  = Throw StorageError.
Proof. vm_compute. by repeat split. Qed.

End Concrete.

(** ** Further properties of the backup store *)
Section StoreRoundTrips.
Context `{Platform}.

Lemma all_ok_tail w w' :
  idb w' = tail (idb w) →
  Forall (λ o, o = IdbOk) (idb w) → Forall (λ o, o = IdbOk) (idb w').
Proof. intros ->. destruct (idb w); [done|]. intros Hall. by eapply Forall_cons_1. Qed.

Lemma all_ok_head w : Forall (λ o, o = IdbOk) (idb w) → hd IdbOk (idb w) = IdbOk.
Proof. destruct (idb w); [done|]. intros Hall. by apply Forall_cons_1 in Hall as [-> _]. Qed.

(** [X1] Writing, listing and deleting.  When the IndexedDB operations
    succeed, on a database that has the object store or does not exist yet,
    [getBackups] after [storeBackup backup] lists the snapshot written,
    once, beside every snapshot that was stored under another id, and
    nothing else: a snapshot stored under the same id is replaced.  After
    [deleteBackup] of that id the list has no snapshot of that id and is
    otherwise as before the write. *)
Theorem storeBackup_getBackups_deleteBackup backup r w :
  Forall (λ o, o = IdbOk) (idb w) →
  database w ≠ NoObjectStore →
  let s1 := snd (storeBackup backup (r, w)) in
  let s2 := snd (deleteBackup (id backup) s1) in
  (∃ l, fst (getBackups s1) = Ok l ∧ NoDup (id <$> l) ∧ backup ∈ l ∧
        ∀ b, b ∈ l ↔ b = backup ∨ (id b ≠ id backup ∧ b ∈ getAll (backups w))) ∧
  (∃ l, fst (getBackups s2) = Ok l ∧ NoDup (id <$> l) ∧
        ∀ b, b ∈ l ↔ id b ≠ id backup ∧ b ∈ getAll (backups w)).
Proof.
  intros Hall Hdb. cbv zeta.
  destruct (storeBackup_run backup r w) as (w1 & Hidb1 & -> & Hst).
  rewrite (storeBackup_result_all_ok w Hall Hdb) in Hst.
  destruct Hst as (Hb1 & Hst1 & _). simpl.
  pose proof (all_ok_tail _ _ Hidb1 Hall) as Hall1.
  destruct (deleteBackup_run (id backup) r w1) as (w2 & _ & Hidb2 & Hst2 & Hdel).
  rewrite (all_ok_head w1 Hall1), Hst1 in Hdel. destruct Hdel as (-> & Hb2). simpl.
  pose proof (all_ok_tail _ _ Hidb2 Hall1) as Hall2.
  destruct (getBackups_run r w1) as (w1' & _ & _ & _ & _ & _ & ->).
  destruct (getBackups_run r w2) as (w2' & _ & _ & _ & _ & _ & ->).
  unfold getBackups_result.
  rewrite (all_ok_head w1 Hall1), (all_ok_head w2 Hall2), Hst2, Hst1. simpl. split.
  - exists (getAll (backups w1)). split; [done|]. split; [apply NoDup_getAll_ids|].
    assert (∀ b, b ∈ getAll (backups w1)
                 ↔ b = backup ∨ (id b ≠ id backup ∧ b ∈ getAll (backups w))) as Hiff.
    { intros b. rewrite !elem_of_getAll, Hb1, lookup_insert_Some. split.
      - intros [[Hid Hrow]|[Hne Hb]]; [left|right; by split].
        destruct b, backup; simpl in *. by simplify_eq.
      - intros [->|[Hne Hb]]; [by left|right; by split]. }
    split; [apply Hiff; by left|done].
  - exists (getAll (backups w2)). split; [done|]. split; [apply NoDup_getAll_ids|].
    intros b. rewrite !elem_of_getAll, Hb2, lookup_delete_Some, Hb1.
    split.
    + intros [Hne Hb]. split; [done|]. by rewrite lookup_insert_ne in Hb.
    + intros [Hne Hb]. split; [done|]. by rewrite lookup_insert_ne.
Qed.

End StoreRoundTrips.

(** ** Structural validation *)
Section Validation.
Context `{Platform}.

(** [X2] What [validateRecoveredData] accepts: exactly the objects whose
    property [files] is an array.  [null], arrays, numbers, strings and
    booleans are refused, and so is an object without [files] or with a
    [files] that is not an array. *)
Theorem validateRecoveredData_iff data :
  validateRecoveredData data = true ↔
  ∃ props items, data = JObj props ∧ get_prop data "files" = Some (JArr items).
Proof.
  unfold validateRecoveredData. split.
  - destruct data as [|b|n|s|items|props]; simpl;
      rewrite ?andb_false_r, ?andb_false_l; try done.
    intros Hv. exists props.
    destruct (snd <$> last (filter (λ kv, fst kv = "files") props)) as [[| | | |items|]|];
      simpl in Hv; rewrite ?andb_false_r in Hv; try done. by exists items.
  - intros (props & items & -> & Hfiles). by rewrite Hfiles.
Qed.

End Validation.

(** ** Further properties of crash recovery *)
Section RecoverySafety.
Context `{Platform}.

Lemma restore_Ok backup data :
  restore backup = Ok data →
  ∃ b, backup = Some b ∧ JSON_parse (content b) = Some data ∧
       validateRecoveredData data = true.
Proof.
  unfold restore. destruct backup as [b|]; [|done].
  destruct (JSON_parse (content b)) as [d|] eqn:Hp; [|done].
  destruct (validateRecoveredData d) eqn:Hv; [|done].
  intros [= <-]. by exists b.
Qed.

(** [X3] What recovery can return.  Whatever [recoverFromCrash] returns is
    [null] or the parsed payload of a stored snapshot, the newest or the
    second newest, that passes structural validation.  It changes neither
    the service nor the store, [localStorage] or the timers. *)
Theorem recoverFromCrash_sound r w data :
  fst (recoverFromCrash (r, w)) = Ok data →
  (data = JNull ∨
   (validateRecoveredData data = true ∧
    ∃ b, b ∈ take 2 (Array_sort by_timestamp_desc (getAll (backups w))) ∧
         b ∈ getAll (backups w) ∧
         JSON_parse (content b) = Some data)) ∧
  fst (snd (recoverFromCrash (r, w))) = r ∧
  backups (snd (snd (recoverFromCrash (r, w)))) = backups w ∧
  localStorage (snd (snd (recoverFromCrash (r, w)))) = localStorage w ∧
  timers (snd (snd (recoverFromCrash (r, w)))) = timers w.
Proof.
  destruct (recoverFromCrash_run r w) as (w' & Hfr & Hbs & _ & _ & _ & ->). simpl.
  destruct Hfr as (_ & _ & Hls & _ & _ & _ & _ & _ & Htm & _).
  intros Hok. split; [|done].
  destruct (hd IdbOk (idb w)), (has_object_store w); try (left; congruence); try done.
  pose proof (Array_sort_perm by_timestamp_desc (getAll (backups w))) as Hperm.
  destruct (Array_sort by_timestamp_desc (getAll (backups w))) as [|b1 older] eqn:Hs;
    [left; congruence|].
  right.
  assert (∃ b, b ∈ take 2 (b1 :: older) ∧ JSON_parse (content b) = Some data ∧
               validateRecoveredData data = true) as (b & Hin & Hparse & Hvalid).
  { destruct (verifies b1).
    - apply (restore_Ok (Some b1)) in Hok as (b & [= <-] & ? & ?). exists b1.
      split; [simpl; by left|done].
    - apply (restore_Ok (head older)) in Hok as (b & Hhd & ? & ?). exists b.
      destruct older as [|b2 older]; [done|]. simpl in Hhd. injection Hhd as ->.
      split; [simpl; right; by left|done]. }
  split; [done|]. exists b. split; [done|]. split; [|done].
  rewrite <- Hperm. eapply subseteq_take, Hin.
Qed.

(** [X4] One snapshot, corrupted.  When the store holds a single snapshot
    and it fails its checksum, [recoverFromCrash] does not answer [null]:
    it hands the missing second snapshot to [recoverFromBackup], and the
    [TypeError] of reading it rejects the promise past the [catch]. *)
Theorem recoverFromCrash_single_corrupted r w b :
  hd IdbOk (idb w) = IdbOk →
  getAll (backups w) = [b] →
  verifies b = false →
  fst (recoverFromCrash (r, w)) = Throw TypeError ∧
  fst (triggerRecovery (r, w)) = Throw TypeError.
Proof.
  intros Hidb Hone Hv.
  destruct (recoverFromCrash_run r w) as (w' & _ & _ & _ & _ & _ & Hrun).
  assert (has_object_store w = true) as Hst.
  { apply (has_object_store_elem w b). rewrite Hone. by left. }
  unfold triggerRecovery. rewrite Hrun, Hidb, Hst, Hone. simpl. by rewrite Hv.
Qed.

End RecoverySafety.

(** ** Creation, retention and recovery together *)
Section CreateRecover.
Context `{Platform}.

(** [X6] Back up, then recover.  A snapshot of data that passes structural
    validation and that [JSON.parse] reads back from its serialization,
    created later than everything stored: whenever the store is read next,
    by any service instance, [recoverFromCrash] returns that data. *)
Theorem createBackup_then_recoverFromCrash data r w r2 w2 :
  1 ≤ maxBackups r →
  validateRecoveredData data = true →
  JSON_parse (JSON_stringify data) = Some data →
  fst (createBackup data (r, w)) = Ok tt →
  (∀ b', b' ∈ getAll (backups w) →
         timestamp b' < now w + hd 0 (clock w) + hd 0 (tail (clock w))) →
  backups w2 = backups (snd (snd (createBackup data (r, w)))) →
  hd IdbOk (idb w2) = IdbOk →
  fst (recoverFromCrash (r2, w2)) = Ok data.
Proof.
  intros Hmax Hvalid Hparse Hok Hlater Hsame Hidb.
  destruct (createBackup_newest_stays data r w Hmax Hok Hlater)
    as (b & _ & Hc & Hsum & [Hin Hnew]).
  rewrite <- Hsame in Hin, Hnew.
  destruct (recoverFromCrash_run r2 w2) as (w' & _ & _ & _ & _ & _ & ->). simpl.
  rewrite Hidb, (has_object_store_elem _ _ Hin).
  destruct (newest_is_head _ _ Hin Hnew) as [older ->].
  unfold verifies. rewrite <- Hsum, String.eqb_refl.
  unfold restore. by rewrite Hc, Hparse, Hvalid.
Qed.

(** [X7] Bounded retention.  When no IndexedDB operation fails and
    [localStorage] takes the recovery state, the store holds at most
    [maxBackups] snapshots after [createBackup], however many it held
    before; and [createBackup] returns, unless the database is there
    without its object store. *)
Theorem createBackup_bounds_store data r w :
  0 ≤ maxBackups r →
  Forall (λ o, o = IdbOk) (idb w) →
  hd false (quota w) = false →
  (database w ≠ NoObjectStore → fst (createBackup data (r, w)) = Ok tt) ∧
  Z.of_nat (size (backups (snd (snd (createBackup data (r, w)))))) ≤ maxBackups r.
Proof.
  intros Hmax Hall Hq.
  destruct (createBackup_run data r w)
    as (res & r' & w' & b & Hrun & _ & _ & _ & _ & _ & _ & _ & Hcase).
  rewrite Hrun. simpl.
  destruct (decide (database w = NoObjectStore)) as [Hdb|Hdb].
  { split; [done|].
    assert (storeBackup_result w = Pending) as Hres.
    { unfold storeBackup_result. rewrite Hdb, (all_ok_head w Hall). done. }
    rewrite Hres in Hcase. destruct Hcase as (_ & _ & _ & Hdb' & _).
    unfold backups. rewrite Hdb', Hdb, map_size_empty. simpl. lia. }
  rewrite (storeBackup_result_all_ok w Hall Hdb) in Hcase.
  destruct Hcase as (-> & _ & Hcase). rewrite Hq in Hcase.
  destruct Hcase as (w3 & Hclean & _ & Hst3 & Hidb3 & _).
  assert (Forall (λ o, o = IdbOk) (idb w3)) as Hall3.
  { rewrite Hidb3. destruct (idb w); [done|]. by eapply Forall_cons_1. }
  destruct (cleanOldBackups_exact (bump r) w3 Hmax Hall3 Hst3)
    as (w'' & Hrun' & Hkept & _).
  rewrite Hclean in Hrun'. injection Hrun' as -> <-. split; [done|].
  cbv zeta in Hkept. rewrite <- length_getAll, Hkept, length_take. simpl. lia.
Qed.

Lemma cleanOldBackups_open_error r w rest :
  0 ≤ maxBackups r →
  idb w = IdbOk :: IdbOpenError :: rest →
  maxBackups r < Z.of_nat (size (backups w)) →
  ∃ w', cleanOldBackups (r, w) = (Pending, (r, w')) ∧ backups w' = backups w.
Proof.
  intros Hmax Hidb Hsize.
  assert (has_object_store w = true) as Hst by (apply has_object_store_size; lia).
  destruct (getBackups_run r w) as (w1 & _ & Hidb1 & Hbs1 & Hst1 & _ & Hrun).
  unfold getBackups_result in Hrun.
  rewrite Hidb, Hst in Hrun. rewrite Hidb in Hidb1. simpl in Hrun, Hidb1.
  unfold cleanOldBackups, try_catch. unfold mbind, M_bind at 1. rewrite Hrun.
  unfold mbind, M_bind, this; simpl.
  rewrite length_getAll.
  destruct (Z.leb_spec (Z.of_nat (size (backups w))) (maxBackups r)) as [|_]; [lia|].
  rewrite Array_slice_nonneg by done.
  destruct (drop (Z.to_nat (maxBackups r))
              (Array_sort by_timestamp_desc (getAll (backups w)))) as [|x xs] eqn:Hdrop.
  { apply (f_equal length) in Hdrop.
    rewrite length_drop, Array_sort_length, length_getAll in Hdrop. simpl in Hdrop. lia. }
  simpl. unfold mbind, M_bind at 1.
  destruct (deleteBackup_run (id x) r w1) as (w2 & _ & _ & _ & Hdel).
  rewrite Hidb1 in Hdel. simpl in Hdel. destruct Hdel as [-> Hb2].
  exists w2. by rewrite Hb2, Hbs1.
Qed.

(** [X8] A backup that never settles.  [deleteBackup] has no handler for
    the failure of its [open] request.  When the write and the listing
    succeed, the store is over its limit and the first delete cannot open
    the database, the promise of [createBackup] is never settled, though the
    snapshot is stored and counted; that of the timer's tick neither, so the
    tick never records the save.  (On a database without its object store
    the write itself never settles, and nothing is stored or counted.) *)
Theorem createBackup_never_settles data r w rest :
  0 ≤ maxBackups r →
  idb w = IdbOk :: IdbOk :: IdbOpenError :: rest →
  hd false (quota w) = false →
  maxBackups r ≤ Z.of_nat (size (backups w)) →
  backups w !! ("backup_" +:+ pretty (now w + hd 0 (clock w))) = None →
  let s' := snd (createBackup data (r, w)) in
  fst (createBackup data (r, w)) = Pending ∧
  fst (autoBackupTick (Ok data) (r, w)) = Pending ∧
  snd (autoBackupTick (Ok data) (r, w)) = s' ∧
  lastSaved (recoveryState (fst s')) = lastSaved (recoveryState r) ∧
  unsavedChanges (recoveryState (fst s')) = unsavedChanges (recoveryState r) ∧
  (database w ≠ NoObjectStore →
   count s' = backupCount (recoveryState r) + 1 ∧
   size (backups (snd s')) = S (size (backups w)) ∧
   ∃ b, put_log (snd s') = b :: put_log w ∧ b ∈ getAll (backups (snd s'))).
Proof.
  intros Hmax Hidb Hq Hsize Hfresh. cbv zeta.
  destruct (createBackup_run data r w)
    as (res & r' & w' & b & Hrun & Hid & _ & _ & _ & _ & _ & _ & Hcase).
  rewrite autoBackupTick_run, Hrun. simpl.
  destruct (decide (database w = NoObjectStore)) as [Hdb|Hdb].
  { assert (storeBackup_result w = Pending) as Hres.
    { unfold storeBackup_result. by rewrite Hdb, Hidb. }
    rewrite Hres in Hcase. by destruct Hcase as (-> & -> & _). }
  assert (storeBackup_result w = Ok tt) as Hres.
  { apply storeBackup_result_Ok. by rewrite Hidb. }
  rewrite Hres, Hq in Hcase. rewrite Hidb in Hcase. simpl in Hcase.
  destruct Hcase as (-> & Hlog & w3 & Hclean & Hb3 & _ & Hidb3 & _).
  rewrite <- Hid in Hfresh.
  assert (size (backups w3) = S (size (backups w))) as Hsize3.
  { rewrite Hb3. by apply map_size_insert_None. }
  destruct (cleanOldBackups_open_error (bump r) w3 rest Hmax Hidb3) as (w4 & Hrun4 & Hb4).
  { simpl. lia. }
  rewrite Hclean in Hrun4. injection Hrun4 as -> <-.
  do 5 (split; [done|]). intros _. split; [done|]. split; [by rewrite Hb4|].
  exists b. split; [done|]. apply elem_of_getAll. by rewrite Hb4, Hb3, lookup_insert_eq.
Qed.

End CreateRecover.

(** ** Ticks, unsaved changes and the crash indicator *)
Section Bookkeeping.
Context `{Platform}.

Lemma createBackup_fields data r w :
  let r' := fst (snd (createBackup data (r, w))) in
  (r' = r ∨ r' = bump r) ∧
  timers (snd (snd (createBackup data (r, w)))) = timers w.
Proof.
  destruct (createBackup_run data r w)
    as (res & r' & w' & b & Hrun & _ & _ & _ & _ & _ & Htm & _ & Hcase).
  rewrite Hrun. simpl. split; [|done].
  destruct (storeBackup_result w) as [[]|e|].
  - right. by destruct Hcase as (-> & _).
  - left. by destruct Hcase as (_ & -> & _).
  - left. by destruct Hcase as (_ & -> & _).
Qed.

(** [X9] A tick of the auto-backup timer.  Its promise never rejects:
    whatever the producer or [createBackup] throws is caught.  It leaves the
    timers alone, so the next tick comes.  When [createBackup] has returned,
    the tick records the save: [lastSaved] is the clock reading made after
    it and [unsavedChanges] is false.  Otherwise both are as they were; and
    when the producer itself fails, nothing at all has changed. *)
Theorem autoBackupTick_tolerant d r w :
  let s' := snd (autoBackupTick d (r, w)) in
  (∀ e, fst (autoBackupTick d (r, w)) ≠ Throw e) ∧
  timers (snd s') = timers w ∧ backupTimer (fst s') = backupTimer r ∧
  match d with
  | Ok data =>
      match fst (createBackup data (r, w)) with
      | Ok _ =>
          fst (autoBackupTick d (r, w)) = Ok tt ∧
          unsavedChanges (recoveryState (fst s')) = false ∧
          lastSaved (recoveryState (fst s')) = now (snd s') ∧
          now (snd s')
          = now (snd (snd (createBackup data (r, w))))
            + hd 0 (clock (snd (snd (createBackup data (r, w)))))
      | _ =>
          s' = snd (createBackup data (r, w)) ∧
          unsavedChanges (recoveryState (fst s')) = unsavedChanges (recoveryState r) ∧
          lastSaved (recoveryState (fst s')) = lastSaved (recoveryState r)
      end
  | _ => s' = (r, w)
  end.
Proof.
  cbv zeta. rewrite autoBackupTick_run.
  destruct d as [data| |]; [|by repeat split..].
  pose proof (createBackup_fields data r w) as [Hr Htm]. cbv zeta in Hr.
  destruct (createBackup data (r, w)) as [[[]|e|] [r1 w1]]; simpl in *.
  - split; [done|]. split; [done|]. split; [|done]. by destruct Hr as [-> | ->].
  - split; [done|]. split; [done|]. split; [by destruct Hr as [-> | ->]|].
    split; [done|]. by destruct Hr as [-> | ->].
  - split; [done|]. split; [done|]. split; [by destruct Hr as [-> | ->]|].
    split; [done|]. by destruct Hr as [-> | ->].
Qed.

Lemma markUnsavedChanges_run r w :
  let r1 := set_recoveryState
              (mkRecoveryState (lastSaved (recoveryState r)) true
                 (backupCount (recoveryState r)) (crashDetected (recoveryState r))) r in
  ∃ w', snd (markUnsavedChanges (r, w)) = (r1, w') ∧
        (fst (markUnsavedChanges (r, w)) = Ok tt →
         localStorage w' !! recovery_state_key
         = Some (JSON_stringify (RecoveryState_json (recoveryState r1)))).
Proof.
  unfold markUnsavedChanges, updateRecoveryState. run_M. unfold localStorage_setItem.
  destruct (hd false (quota w)); eexists; (split; [reflexivity|]); [done|].
  intros _. simpl. by rewrite lookup_insert_eq.
Qed.

(** [X10] The unsaved-changes prompt.  A new service does not prompt on
    [beforeunload].  After [markUnsavedChanges] it does, even when the
    write of the recovery state to [localStorage] has thrown; when that
    write succeeds, [localStorage] holds the recovery state as it is in
    memory.  A tick whose backup returns stops the prompt; but the copy in
    [localStorage], written during the backup and before the tick clears
    the flag, still says that there are unsaved changes. *)
Theorem unsaved_changes_prompt r w :
  let s1 := snd (markUnsavedChanges (r, w)) in
  (∀ w0, fst (beforeunload (new_ReliabilityService, w0)) = Ok None) ∧
  fst (beforeunload s1) = Ok (Some unsaved_prompt) ∧
  (fst (markUnsavedChanges (r, w)) = Ok tt →
   localStorage (snd s1) !! recovery_state_key
   = Some (JSON_stringify (RecoveryState_json (recoveryState (fst s1))))) ∧
  (∀ data,
     fst (createBackup data s1) = Ok tt →
     let s2 := snd (autoBackupTick (Ok data) s1) in
     fst (beforeunload s2) = Ok None ∧
     unsavedChanges (recoveryState (fst s2)) = false ∧
     localStorage (snd s2) !! recovery_state_key
     = Some (JSON_stringify
               (RecoveryState_json
                  (mkRecoveryState (lastSaved (recoveryState r)) true
                     (backupCount (recoveryState r) + 1)
                     (crashDetected (recoveryState r)))))).
Proof.
  cbv zeta. split; [done|].
  destruct (markUnsavedChanges_run r w) as (w1 & Hs1 & Hpersist). cbv zeta in Hs1, Hpersist.
  rewrite Hs1. split; [done|]. split; [done|].
  intros data Hok. rewrite autoBackupTick_run.
  match goal with |- context [createBackup data (?r0, w1)] =>
    destruct (createBackup_run data r0 w1)
      as (res & r' & w' & b & Hrun & _ & _ & _ & _ & _ & _ & _ & Hcase) end.
  rewrite Hrun in *. simpl in Hok. subst res.
  destruct (storeBackup_result w1) as [[]|e|]; [|by destruct Hcase..].
  destruct Hcase as (-> & _ & Hcase).
  destruct (hd false (quota w1)); [by destruct Hcase|].
  destruct Hcase as (w3 & _ & _ & _ & _ & Hls). simpl.
  split; [done|]. split; [done|]. by rewrite Hls, lookup_insert_eq.
Qed.

Lemma step_crashDetected op s :
  crashDetected (recoveryState (fst (step op s)))
  = match op with
    | Init => truthy_string (localStorage (snd s) !! crash_flag)
              || crashDetected (recoveryState (fst s))
    | _ => crashDetected (recoveryState (fst s))
    end.
Proof.
  destruct op; simpl.
  - destruct s as [r w].
    destruct (initializeRecovery_run r w) as (res & r' & w' & Hrun & _ & _ & Hcd & _).
    by rewrite Hrun.
  - destruct s as [r w]. by destruct (startAutoBackup_run r w) as (w1 & w' & _ & -> & _).
  - destruct s as [r w]. by destruct (stopAutoBackup_run r w) as (w' & -> & _).
  - destruct s as [r w]. unfold fire. run_M.
    destruct (timers w !! t) as [[[] ms]|]; try done.
    rewrite autoBackupTick_run. destruct getDataCallback as [data| |]; try done.
    pose proof (createBackup_fields data r w) as [Hr _]. cbv zeta in Hr.
    destruct (createBackup data (r, w)) as [[[]|e|] [r1 w1]]; simpl in *;
      by destruct Hr as [-> | ->].
  - destruct s as [r w]. pose proof (createBackup_fields data r w) as [Hr _].
    cbv zeta in Hr. by destruct Hr as [-> | ->].
  - destruct s as [r w]. unfold markUnsavedChanges, updateRecoveryState. run_M.
    unfold localStorage_setItem. by destruct (hd false (quota w)).
  - unfold triggerRecovery. by destruct (recoverFromCrash_footprint s) as (_ & _ & -> & _).
  - destruct s as [r w]. unfold cleanup. unfold mbind, M_bind at 1.
    by destruct (stopAutoBackup_run r w) as (w' & -> & _).
  - destruct s as [r w]. unfold beforeunload. run_M.
    by destruct (unsavedChanges (recoveryState r)).
  - done.
  - done.
Qed.

(** [X11] The crash indicator.  Only [initializeRecovery] writes
    [crashDetected]: over any events without it the indicator keeps its
    value, and no event ever resets it.  So once a crash was detected,
    [isCrashRecoveryAvailable] answers true for the rest of the session,
    also after a recovery that succeeded. *)
Theorem crashDetected_persists ops s :
  let s' := session ops s in
  fst (isCrashRecoveryAvailable s') = Ok (crashDetected (recoveryState (fst s'))) ∧
  (crashDetected (recoveryState (fst s)) = true →
   crashDetected (recoveryState (fst s')) = true) ∧
  (Init ∉ ops →
   crashDetected (recoveryState (fst s')) = crashDetected (recoveryState (fst s))).
Proof.
  cbv zeta. split; [done|]. revert s. induction ops as [|op ops IH]; intros s; [done|].
  simpl. destruct (IH (step op s)) as [Hmono Hsame]. split.
  - intros Hset. apply Hmono. rewrite step_crashDetected.
    destruct op; try done. rewrite Hset. apply orb_true_r.
  - intros Hnot. apply not_elem_of_cons in Hnot as [Hne Hnot].
    rewrite (Hsame Hnot), step_crashDetected. by destruct op.
Qed.

End Bookkeeping.

(** ** Further properties of the cache *)
Section CacheFacts.
Context `{Platform}.

Lemma getCache_counts key p w :
  let p' := fst (snd (getCache key (p, w))) in
  (cacheHits p' = cacheHits p + 1 ∧ cacheMisses p' = cacheMisses p) ∨
  (cacheHits p' = cacheHits p ∧ cacheMisses p' = cacheMisses p + 1).
Proof.
  pose proof (getCache_run key p w) as Hget. cbv zeta.
  destruct (getCache key (p, w)) as [res [p2 w2]]. simpl.
  destruct (cache p !! key) as [item|]; [|right; by destruct_and!].
  case_bool_decide; [left|right]; by destruct_and!.
Qed.

(** [X12] The counters of the cache.  Over any writes and reads, every read
    is counted exactly once, as a hit or as a miss, and nothing else is
    counted: the two counters have grown, together, by the number of
    reads. *)
Theorem cache_counters ops p w :
  let p' := fst (cache_session ops (p, w)) in
  cacheHits p ≤ cacheHits p' ∧ cacheMisses p ≤ cacheMisses p' ∧
  cacheHits p' + cacheMisses p'
  = cacheHits p + cacheMisses p + Z.of_nat (length (filter is_get ops)).
Proof.
  cbv zeta. revert p w. induction ops as [|op ops IH]; intros p w.
  - simpl. lia.
  - change (cache_session (op :: ops) (p, w))
      with (cache_session ops (cache_step op (p, w))).
    destruct op as [key v ttl|key]; unfold cache_step.
    + pose proof (setCache_run key v ttl p w) as (_ & _ & Hh & Hm). cbv zeta in Hh, Hm.
      destruct (setCache key v ttl (p, w)) as [res [p1 w1]].
      cbn [fst snd] in *.
      specialize (IH p1 w1). rewrite filter_cons_False by (by intros []). lia.
    + pose proof (getCache_counts key p w) as Hc. cbv zeta in Hc.
      destruct (getCache key (p, w)) as [res [p1 w1]].
      cbn [fst snd] in *.
      specialize (IH p1 w1). rewrite filter_cons_True by exact I.
      rewrite length_cons. lia.
Qed.

(** [X13] One key at a time.  [setCache] on a key changes nothing for the
    readers of another key: their answer and what they count are as without
    the write.  A second [setCache] on the same key replaces value and
    expiry, so the entry then expires by the later write's TTL alone, even
    when that is the shorter one. *)
Theorem setCache_one_key key v ttl p w :
  let p1 := fst (snd (setCache key v ttl (p, w))) in
  (∀ key' w', key' ≠ key →
     fst (getCache key' (p1, w')) = fst (getCache key' (p, w')) ∧
     cacheHits (fst (snd (getCache key' (p1, w'))))
     = cacheHits (fst (snd (getCache key' (p, w')))) ∧
     cacheMisses (fst (snd (getCache key' (p1, w'))))
     = cacheMisses (fst (snd (getCache key' (p, w'))))) ∧
  (∀ v2 ttl2 w2,
     cache (fst (snd (setCache key v2 ttl2 (p1, w2)))) !! key
     = Some (mkCacheItem v2 (now w2 + hd 0 (clock w2) + default 300000 ttl2))).
Proof.
  cbv zeta. pose proof (setCache_run key v ttl p w) as (_ & Hc & Hh & Hm).
  cbv zeta in Hc, Hh, Hm.
  remember (fst (snd (setCache key v ttl (p, w)))) as p1 eqn:Hp1. clear Hp1. split.
  - intros key' w' Hne.
    pose proof (getCache_run key' p1 w') as H1.
    pose proof (getCache_run key' p w') as H0.
    destruct (getCache key' (p1, w')) as [res1 [q1 w1]].
    destruct (getCache key' (p, w')) as [res0 [q0 w0]]. simpl.
    rewrite Hc, lookup_insert_ne in H1 by done.
    destruct (cache p !! key') as [item|].
    + case_bool_decide; destruct_and!; repeat split; congruence.
    + destruct_and!; repeat split; congruence.
  - intros v2 ttl2 w2.
    pose proof (setCache_run key v2 ttl2 p1 w2) as (_ & -> & _).
    apply lookup_insert_eq.
Qed.

End CacheFacts.

(** ** Further properties of the auto-save and the sync loop *)
Section AutoSaveFacts.
Context `{Platform}.

(** [X14] The latency metric.  When [syncToServer] returns, [syncLatency]
    is the duration of the request that succeeded, alone: the failed
    attempts before it and the waits are not in it, and nothing else of the
    service has changed.  When it throws, the service is as it was. *)
Theorem syncToServer_latency data p w :
  let p' := fst (snd (syncToServer data (p, w))) in
  match fst (syncToServer data (p, w)) with
  | Ok _ =>
      ∃ k status dt,
        (k < 3)%nat ∧ fetch_outcome w k = FetchResponse status dt ∧
        attempt_error (fetch_outcome w k) = None ∧
        (∀ j, (j < k)%nat → attempt_error (fetch_outcome w j) ≠ None) ∧
        syncLatency (metrics p') = Z.max 0 dt ∧
        renderTime (metrics p') = renderTime (metrics p) ∧
        cache p' = cache p ∧ cacheHits p' = cacheHits p ∧
        cacheMisses p' = cacheMisses p
  | _ => p' = p
  end.
Proof.
  unfold syncToServer, fetch_outcome. simpl sync_loop.
  unfold sync_attempt. run_M. unfold fetch_sync, setTimeout_await, attempt_error. simpl.
  destruct (net w) as [|o0 [|o1 [|o2 rest]]]; simpl; try done.
  - destruct o0 as [dt0|st0 dt0]; simpl; [done|].
    destruct ((200 <=? st0) && (st0 <=? 299)) eqn:H0; simpl; [|done].
    exists 0%nat, st0, dt0. simpl. rewrite H0. repeat split; try done; try lia.
  - destruct o0 as [dt0|st0 dt0]; simpl;
      [|destruct ((200 <=? st0) && (st0 <=? 299)) eqn:H0; simpl;
        [exists 0%nat, st0, dt0; simpl; rewrite H0; repeat split; try done; lia|]];
      (destruct o1 as [dt1|st1 dt1]; simpl; [done|];
       destruct ((200 <=? st1) && (st1 <=? 299)) eqn:H1; simpl; [|done];
       exists 1%nat, st1, dt1; simpl; rewrite H1; repeat split; try done; try lia;
       intros [|j] Hj; simpl; rewrite ?H0; try done; lia).
  - destruct o0 as [dt0|st0 dt0]; simpl;
      [|destruct ((200 <=? st0) && (st0 <=? 299)) eqn:H0; simpl;
        [exists 0%nat, st0, dt0; simpl; rewrite H0; repeat split; try done; lia|]];
      (destruct o1 as [dt1|st1 dt1]; simpl;
       [|destruct ((200 <=? st1) && (st1 <=? 299)) eqn:H1; simpl;
         [exists 1%nat, st1, dt1; simpl; rewrite H1; repeat split; try done; try lia;
          intros [|j] Hj; simpl; rewrite ?H0; try done; lia|]];
       (destruct o2 as [dt2|st2 dt2]; simpl; [done|];
        destruct ((200 <=? st2) && (st2 <=? 299)) eqn:H2; simpl; [|done];
        exists 2%nat, st2, dt2; simpl; rewrite H2; repeat split; try done; try lia;
        intros [|[|j]] Hj; simpl; rewrite ?H0, ?H1; try done; lia)).
Qed.

End AutoSaveFacts.
(** ** The callers: [App] and the recovery dialog *)
Section AppFacts.
Context `{Platform}.







End AppFacts.
(** ** What an auto-save leaves behind *)
Section AutoSaveRecord.
Context `{Platform}.

Lemma autoSave_try_files content fileId p w :
  ∃ res p' w',
    autoSave_try content fileId (p, w) = (res, (p', w')) ∧
    res ≠ Pending ∧
    files w' =
      match hd IdbOk (idb w) with
      | IdbOk => <[fileId := mkFileRow content (now w + hd 0 (clock w)) false]> (files w)
      | _ => files w
      end ∧
    (hd IdbOk (idb w) ≠ IdbOk ∨ onLine w = false →
     net w' = net w ∧ sleeps w' = sleeps w).
Proof.
  unfold autoSave_try, saveToIndexedDB. run_M.
  destruct (hd IdbOk (idb w)) eqn:Hidb; simpl.
  2,3: by eexists _, _, _.
  destruct (onLine w) eqn:Hon; simpl.
  - match goal with |- context [syncToServer ?d (?p0, ?w0)] =>
      destruct (syncToServer_run d p0 w0)
        as (res & p' & w' & Hrun & _ & _ & _ & Hfiles & _ & Hcase);
      rewrite Hrun end.
    simpl in Hfiles.
    assert (res ≠ Pending) as Hres.
    { repeat match type of Hcase with match ?x with _ => _ end => destruct x end;
        by destruct Hcase as [-> _]. }
    destruct res as [[]|e|]; simpl; [| |done].
    + unfold toISOString_check.
      destruct (Z.abs (now w + hd 0 (clock w)) <=? 8640000000000000);
        eexists _, _, _; (split; [reflexivity|]); (split; [done|]); (split; [done|]);
        by intros [|].
    + eexists _, _, _. split; [reflexivity|]. split; [done|]. split; [done|].
      by intros [|].
  - unfold toISOString_check.
    destruct (Z.abs (now w + hd 0 (clock w)) <=? 8640000000000000);
      by eexists _, _, _.
Qed.

Lemma handleAutoSaveError_net fileId content p w :
  net (snd (snd (handleAutoSaveError fileId content (p, w)))) = net w ∧
  sleeps (snd (snd (handleAutoSaveError fileId content (p, w)))) = sleeps w.
Proof.
  unfold handleAutoSaveError. run_M. unfold localStorage_setItem. simpl.
  by destruct (hd false (quota w)).
Qed.

(** [X17] What an auto-save leaves behind.  [autoSave] never rejects,
    whatever fails below it.  When the IndexedDB write succeeds, the store
    [files] holds, for that file, the content and the time read at the start
    of the call, marked [synced: false], and is otherwise unchanged; the
    mark stays [false] when the sync that follows succeeds.  When the write
    fails the store is unchanged and no request is sent.  Offline, no
    request is sent and nothing is waited for. *)
Theorem autoSave_record content fileId p w :
  let w' := snd (snd (autoSave content fileId (p, w))) in
  fst (autoSave content fileId (p, w)) = Ok tt ∧
  files w' =
    match hd IdbOk (idb w) with
    | IdbOk => <[fileId := mkFileRow content (now w + hd 0 (clock w)) false]> (files w)
    | _ => files w
    end ∧
  (hd IdbOk (idb w) ≠ IdbOk ∨ onLine w = false →
   net w' = net w ∧ sleeps w' = sleeps w).
Proof.
  cbv zeta. unfold autoSave, try_catch.
  destruct (autoSave_try_files content fileId p w)
    as (res & p1 & w1 & -> & Hres & Hfiles & Hnet).
  destruct res as [[]|e|]; [done| |done].
  destruct (handleAutoSaveError_run fileId content p1 w1) as (w2 & Hrun & Hf2 & _).
  destruct (handleAutoSaveError_net fileId content p1 w1) as [Hn2 Hs2].
  rewrite Hrun in *. simpl in *. split; [done|]. split; [congruence|].
  intros Hcase. destruct (Hnet Hcase). split; congruence.
Qed.

End AutoSaveRecord.
(** ** The checksum as text *)
Section ChecksumText.
Context `{Platform}.

Lemma hex_digit_inj d1 d2 :
  0 ≤ d1 < 16 → 0 ≤ d2 < 16 → Sha256.hex_digit d1 = Sha256.hex_digit d2 → d1 = d2.
Proof.
  intros H1 H2.
  rewrite <- (Z2Nat.id d1), <- (Z2Nat.id d2) by lia.
  assert (Z.to_nat d1 < 16)%nat as Hn1 by lia.
  assert (Z.to_nat d2 < 16)%nat as Hn2 by lia.
  generalize dependent (Z.to_nat d2). generalize dependent (Z.to_nat d1).
  intros n1 Hn1 n2 Hn2 Heq.
  do 16 (destruct n1 as [|n1];
         [do 16 (destruct n2 as [|n2]; [by vm_compute in Heq|]); lia|]).
  lia.
Qed.

Lemma hex_byte_inj b1 b2 :
  0 ≤ b1 < 256 → 0 ≤ b2 < 256 → Sha256.hex_byte b1 = Sha256.hex_byte b2 → b1 = b2.
Proof.
  intros H1 H2 [= Hhi Hlo].
  apply hex_digit_inj in Hhi; [|split; [apply Z.div_pos|apply Z.div_lt_upper_bound]; lia..].
  apply hex_digit_inj in Hlo; [|apply Z.mod_pos_bound; lia..].
  rewrite (Z.div_mod b1 16), (Z.div_mod b2 16) by lia. congruence.
Qed.

Lemma hex_cons b bs :
  Sha256.hex (b :: bs) = (Sha256.hex_byte b ++ Sha256.hex bs)%string.
Proof.
  unfold Sha256.hex. simpl. destruct (map Sha256.hex_byte bs); [|done].
  simpl. done.
Qed.

Lemma hex_inj bs1 bs2 :
  Forall (λ b, 0 ≤ b < 256) bs1 → Forall (λ b, 0 ≤ b < 256) bs2 →
  Sha256.hex bs1 = Sha256.hex bs2 → bs1 = bs2.
Proof.
  intros H1. revert bs2. induction H1 as [|b1 bs1 Hb1 _ IH]; intros bs2 H2 Heq.
  - destruct bs2 as [|b2 bs2]; [done|]. by rewrite hex_cons in Heq.
  - destruct H2 as [|b2 bs2 Hb2 H2]; [by rewrite hex_cons in Heq|].
    rewrite !hex_cons in Heq. injection Heq as Hhi Hlo Hrest.
    f_equal; [|by apply IH].
    apply hex_byte_inj; [done..|]. unfold Sha256.hex_byte. congruence.
Qed.

Lemma hex_length bs : String.length (Sha256.hex bs) = (2 * length bs)%nat.
Proof.
  induction bs as [|b bs IH]; [done|]. rewrite hex_cons.
  change (S (S (String.length (Sha256.hex bs))) = (2 * length (b :: bs))%nat).
  rewrite IH, length_cons. lia.
Qed.

(** [X18] The checksum as text.  [generateChecksum] writes every byte of
    the digest as two hexadecimal digits, so the text is twice as long as
    the digest and two texts are equal only when the digests are: a stored
    snapshot passes [verifyBackup] exactly when the digest of its content is
    the digest its checksum was written from. *)
Theorem generateChecksum_faithful s1 s2 :
  let d1 := crypto_subtle_digest (Sha256.bytes_of_string s1) in
  let d2 := crypto_subtle_digest (Sha256.bytes_of_string s2) in
  Forall (λ b, 0 ≤ b < 256) d1 → Forall (λ b, 0 ≤ b < 256) d2 →
  String.length (generateChecksum s1) = (2 * length d1)%nat ∧
  (generateChecksum s1 = generateChecksum s2 ↔ d1 = d2) ∧
  ∀ i t v r w,
    fst (verifyBackup (mkBackupData i s1 t v (generateChecksum s2)) (r, w))
    = Ok (bool_decide (d1 = d2)).
Proof.
  intros d1 d2 H1 H2. unfold generateChecksum. fold d1 d2.
  assert (Sha256.hex d1 = Sha256.hex d2 ↔ d1 = d2) as Hiff.
  { split; [by apply hex_inj|by intros ->]. }
  split; [apply hex_length|]. split; [done|].
  intros i t v r w. unfold verifyBackup, try_catch, generateChecksum. simpl. fold d1 d2.
  f_equal. case_bool_decide as Hd.
  - apply String.eqb_eq. by apply Hiff.
  - apply String.eqb_neq. by rewrite Hiff.
Qed.

End ChecksumText.
(** ** A database without its object store *)
Section Stuck.
Context `{Platform}.

Lemma createBackup_stuck data r w :
  database w = NoObjectStore →
  ∃ w', createBackup data (r, w)
        = (match hd IdbOk (idb w) with
           | IdbOpenError => Throw StorageError
           | _ => Pending
           end, (r, w')) ∧
        database w' = NoObjectStore ∧ put_log w' = put_log w ∧
        timers w' = timers w.
Proof.
  intros Hdb.
  destruct (createBackup_run data r w)
    as (res & r' & w' & b & Hrun & _ & _ & _ & _ & _ & Htm & _ & Hcase).
  exists w'. rewrite Hrun. unfold storeBackup_result in Hcase. rewrite Hdb in Hcase.
  destruct (hd IdbOk (idb w)) eqn:Hhd.
  - destruct Hcase as (-> & -> & ? & Hdb' & _). by rewrite Hdb'.
  - revert Hrun. unfold createBackup, storeBackup, open_database. run_M.
    rewrite Hhd. simpl. intros [= <- <- <-]. by rewrite Hdb.
  - destruct Hcase as (-> & -> & ? & Hdb' & _). by rewrite Hdb'.
Qed.

Lemma recoverFromCrash_stuck r w :
  database w = NoObjectStore →
  ∃ w', recoverFromCrash (r, w)
        = (match hd IdbOk (idb w) with
           | IdbOpenError => Ok JNull
           | _ => Pending
           end, (r, w')) ∧
        database w' = NoObjectStore ∧ put_log w' = put_log w.
Proof.
  intros Hdb.
  destruct (recoverFromCrash_run r w) as (w' & Hfr & _ & _ & _ & Hdb' & ->).
  destruct Hfr as (_ & _ & _ & _ & _ & Hlog & _).
  exists w'. unfold has_object_store. rewrite Hdb in *.
  split; [by destruct (hd IdbOk (idb w))|]. split; [|done].
  rewrite Hdb'. by destruct (hd IdbOk (idb w)).
Qed.

Lemma step_stuck op s :
  database (snd s) = NoObjectStore →
  database (snd (step op s)) = NoObjectStore ∧
  put_log (snd (step op s)) = put_log (snd s).
Proof.
  destruct s as [r w]. simpl. intros Hdb. destruct op; simpl.
  - unfold initializeRecovery, set_crashDetected, detached. run_M.
    unfold localStorage_getItem, localStorage_setItem. simpl.
    destruct (truthy_string (localStorage w !! crash_flag)); simpl.
    + match goal with |- context [recoverFromCrash (?r0, w)] =>
        destruct (recoverFromCrash_stuck r0 w Hdb) as (w' & -> & Hdb' & Hlog) end.
      simpl. by destruct (hd false (quota w')).
    + by destruct (hd false (quota w)).
  - unfold startAutoBackup, stopAutoBackup. run_M. by destruct (backupTimer r).
  - unfold stopAutoBackup. run_M. by destruct (backupTimer r).
  - unfold fire. run_M. destruct (timers w !! t) as [[[] ms]|]; try done.
    rewrite autoBackupTick_run. destruct getDataCallback as [data| |]; try done.
    destruct (createBackup_stuck data r w Hdb) as (w' & -> & Hdb' & Hlog & _).
    by destruct (hd IdbOk (idb w)).
  - by destruct (createBackup_stuck data r w Hdb) as (w' & -> & Hdb' & Hlog & _).
  - unfold markUnsavedChanges, updateRecoveryState. run_M.
    unfold localStorage_setItem. by destruct (hd false (quota w)).
  - unfold triggerRecovery.
    by destruct (recoverFromCrash_stuck r w Hdb) as (w' & -> & Hdb' & Hlog).
  - unfold cleanup, stopAutoBackup. run_M. by destruct (backupTimer r).
  - unfold beforeunload. run_M. by destruct (unsavedChanges (recoveryState r)).
  - done.
  - done.
Qed.

Lemma session_stuck ops s :
  database (snd s) = NoObjectStore →
  database (snd (session ops s)) = NoObjectStore ∧
  put_log (snd (session ops s)) = put_log (snd s).
Proof.
  revert s. induction ops as [|op ops IH]; intros s Hdb; [done|].
  simpl. destruct (step_stuck op s Hdb) as [Hdb1 Hlog1].
  destruct (IH (step op s) Hdb1) as [Hdb2 Hlog2]. split; [done|congruence].
Qed.

(** [X19] A database without its object store.  A service that starts
    with the crash flag set on a browser where the database does not exist
    (the session before ended without a backup) reads the store first:
    unless the [open] of that read fails, the database is then there
    without the object store [backups].  It stays so over every later event
    of the session, no snapshot is ever written, and every [createBackup]
    and [triggerRecovery] whose [open] succeeds never settles; a
    [createBackup] whose [open] fails rejects. *)
Theorem database_without_store_is_stuck r w ops data :
  database w = NoDatabase →
  truthy_string (localStorage w !! crash_flag) = true →
  hd IdbOk (idb w) ≠ IdbOpenError →
  let s0 := snd (initializeRecovery (r, w)) in
  let s := session ops s0 in
  database (snd s0) = NoObjectStore ∧
  database (snd s) = NoObjectStore ∧
  put_log (snd s) = put_log w ∧
  database (snd (snd (createBackup data s))) = NoObjectStore ∧
  put_log (snd (snd (createBackup data s))) = put_log w ∧
  fst (createBackup data s)
  = match hd IdbOk (idb (snd s)) with
    | IdbOpenError => Throw StorageError
    | _ => Pending
    end ∧
  fst (triggerRecovery s)
  = match hd IdbOk (idb (snd s)) with
    | IdbOpenError => Ok JNull
    | _ => Pending
    end.
Proof.
  intros Hdb Hflag Hopen. cbv zeta.
  assert (database (snd (snd (initializeRecovery (r, w)))) = NoObjectStore ∧
          put_log (snd (snd (initializeRecovery (r, w)))) = put_log w) as [Hdb0 Hlog0].
  { unfold initializeRecovery, set_crashDetected, detached. run_M.
    unfold localStorage_getItem, localStorage_setItem. simpl. rewrite Hflag. simpl.
    match goal with |- context [recoverFromCrash (?r0, w)] =>
      destruct (recoverFromCrash_run r0 w) as (w' & Hfr & _ & _ & _ & Hdb' & ->) end.
    destruct Hfr as (_ & _ & _ & _ & _ & Hlog & _). simpl.
    rewrite Hdb in Hdb'.
    assert (database w' = NoObjectStore) as Hdb''.
    { rewrite Hdb'. by destruct (hd IdbOk (idb w)). }
    by destruct (hd false (quota w')). }
  destruct (session_stuck ops _ Hdb0) as [Hdb1 Hlog1].
  split; [done|]. split; [done|]. split; [congruence|].
  destruct (session ops (snd (initializeRecovery (r, w)))) as [r1 w1]. simpl in *.
  destruct (createBackup_stuck data r1 w1 Hdb1) as (w2 & -> & Hdb2 & Hlog2 & _).
  unfold triggerRecovery.
  destruct (recoverFromCrash_stuck r1 w1 Hdb1) as (w3 & -> & _).
  simpl. split; [done|]. split; [congruence|]. done.
Qed.

End Stuck.
(** ** The further properties at concrete stores and sessions *)
Section ConcreteFurther.
#[local] Existing Instance browser.

(** A second snapshot written beside a stored one, listed, then deleted. *)
Lemma storeBackup_getBackups_deleteBackup_witness :
  let r := new_ReliabilityService in
  let w := with_backups [v1] (scene 0 [] [] [IdbOk; IdbOk; IdbOk] []) in
  let s1 := snd (storeBackup v2 (r, w)) in
  let s2 := snd (deleteBackup (id v2) s1) in
  (∃ l, fst (getBackups s1) = Ok l ∧ NoDup (id <$> l) ∧ v2 ∈ l ∧
        ∀ b, b ∈ l ↔ b = v2 ∨ (id b ≠ id v2 ∧ b ∈ getAll (backups w))) ∧
  (∃ l, fst (getBackups s2) = Ok l ∧ NoDup (id <$> l) ∧
        ∀ b, b ∈ l ↔ id b ≠ id v2 ∧ b ∈ getAll (backups w)).
Proof.
  apply (storeBackup_getBackups_deleteBackup v2 new_ReliabilityService
           (with_backups [v1] (scene 0 [] [] [IdbOk; IdbOk; IdbOk] []))).
  - simpl. by repeat constructor.
  - simpl. discriminate.
Defined.

(** The newest snapshot corrupted: what comes back is the payload of the
    second newest, a stored snapshot. *)
Lemma recoverFromCrash_sound_witness :
  let r := new_ReliabilityService in
  let w := with_backups [v1; v2; corrupt_checksum v3] blank_world in
  let data := project "two.ts" in
  (data = JNull ∨
   (validateRecoveredData data = true ∧
    ∃ b, b ∈ take 2 (Array_sort by_timestamp_desc (getAll (backups w))) ∧
         b ∈ getAll (backups w) ∧
         JSON_parse (content b) = Some data)) ∧
  fst (snd (recoverFromCrash (r, w))) = r ∧
  backups (snd (snd (recoverFromCrash (r, w)))) = backups w ∧
  localStorage (snd (snd (recoverFromCrash (r, w)))) = localStorage w ∧
  timers (snd (snd (recoverFromCrash (r, w)))) = timers w.
Proof.
  apply (recoverFromCrash_sound new_ReliabilityService
           (with_backups [v1; v2; corrupt_checksum v3] blank_world) (project "two.ts")).
  vm_compute. reflexivity.
Defined.

(** A store of one snapshot whose checksum does not match. *)
Lemma recoverFromCrash_single_corrupted_witness :
  let w := with_backups [corrupt_checksum v3] blank_world in
  fst (recoverFromCrash (new_ReliabilityService, w)) = Throw TypeError ∧
  fst (triggerRecovery (new_ReliabilityService, w)) = Throw TypeError.
Proof.
  apply (recoverFromCrash_single_corrupted new_ReliabilityService
           (with_backups [corrupt_checksum v3] blank_world) (corrupt_checksum v3)).
  - reflexivity.
  - vm_compute. reflexivity.
  - vm_compute. reflexivity.
Defined.

(** Three snapshots stored, a limit of two: the fourth, created at time
    5002, is one of the two that the pruning inside [createBackup] keeps. *)
Lemma createBackup_keeps_created_witness :
  ∃ b, put_log (snd (snd (createBackup (project "four.ts") (keeps_two, three_stored))))
       = b :: put_log three_stored ∧
       b ∈ getAll (backups (snd (snd (createBackup (project "four.ts")
                                        (keeps_two, three_stored))))).
Proof.
  apply (createBackup_keeps_created (project "four.ts") keeps_two three_stored).
  - vm_compute. discriminate.
  - vm_compute. reflexivity.
  - apply Forall_forall. apply (bool_decide_unpack _). vm_compute. exact I.
Defined.

Example createBackup_prunes_four_to_two :
  let s' := snd (createBackup (project "four.ts") (keeps_two, three_stored)) in
  id <$> getAll (backups three_stored) = ["backup_1000"; "backup_2000"; "backup_3000"] ∧
  id <$> getAll (backups (snd s')) = ["backup_3000"; "backup_5001"] ∧
  id <$> put_log (snd s') = ["backup_5001"].
Proof. vm_compute. by repeat split. Qed.

(** The same creation, then a recovery by the service of a later session. *)
Lemma createBackup_then_recoverFromCrash_witness :
  let r := new_ReliabilityService in
  let w := with_backups [v1] (scene 5000 [1; 1] [] [] []) in
  let w2 := snd (snd (createBackup (project "two.ts") (r, w))) in
  fst (recoverFromCrash (new_ReliabilityService, w2)) = Ok (project "two.ts").
Proof.
  apply (createBackup_then_recoverFromCrash (project "two.ts") new_ReliabilityService
           (with_backups [v1] (scene 5000 [1; 1] [] [] []))).
  - vm_compute. discriminate.
  - vm_compute. reflexivity.
  - vm_compute. reflexivity.
  - vm_compute. reflexivity.
  - apply Forall_forall. apply (bool_decide_unpack _). vm_compute. exact I.
  - reflexivity.
  - vm_compute. reflexivity.
Defined.

(** Three snapshots stored, a limit of two: after the fourth is created the
    store holds two. *)
Lemma createBackup_bounds_store_witness :
  (database three_stored ≠ NoObjectStore →
   fst (createBackup (project "four.ts") (keeps_two, three_stored)) = Ok tt) ∧
  Z.of_nat (size (backups (snd (snd (createBackup (project "four.ts")
                                       (keeps_two, three_stored))))))
  ≤ maxBackups keeps_two.
Proof.
  apply (createBackup_bounds_store (project "four.ts") keeps_two three_stored).
  - vm_compute. discriminate.
  - simpl. by repeat constructor.
  - reflexivity.
Defined.

(** The store at its limit, the database failing to open for the delete. *)
Lemma createBackup_never_settles_witness :
  let data := project "three.ts" in
  let s' := snd (createBackup data (keeps_two, third_open_fails)) in
  fst (createBackup data (keeps_two, third_open_fails)) = Pending ∧
  fst (autoBackupTick (Ok data) (keeps_two, third_open_fails)) = Pending ∧
  snd (autoBackupTick (Ok data) (keeps_two, third_open_fails)) = s' ∧
  lastSaved (recoveryState (fst s')) = lastSaved (recoveryState keeps_two) ∧
  unsavedChanges (recoveryState (fst s')) = unsavedChanges (recoveryState keeps_two) ∧
  (database third_open_fails ≠ NoObjectStore →
   count s' = backupCount (recoveryState keeps_two) + 1 ∧
   size (backups (snd s')) = S (size (backups third_open_fails)) ∧
   ∃ b, put_log (snd s') = b :: put_log third_open_fails ∧
        b ∈ getAll (backups (snd s'))).
Proof.
  apply (createBackup_never_settles (project "three.ts") keeps_two third_open_fails []).
  - vm_compute. discriminate.
  - reflexivity.
  - reflexivity.
  - vm_compute. discriminate.
  - vm_compute. reflexivity.
Defined.


(** Two contents that differ in their last letter. *)
Lemma generateChecksum_faithful_witness :
  let d1 := crypto_subtle_digest (Sha256.bytes_of_string "abc") in
  let d2 := crypto_subtle_digest (Sha256.bytes_of_string "abd") in
  String.length (generateChecksum "abc") = (2 * length d1)%nat ∧
  (generateChecksum "abc" = generateChecksum "abd" ↔ d1 = d2) ∧
  ∀ i t v r w,
    fst (verifyBackup (mkBackupData i "abc" t v (generateChecksum "abd")) (r, w))
    = Ok (bool_decide (d1 = d2)).
Proof.
  apply (generateChecksum_faithful "abc" "abd");
    apply (bool_decide_unpack _); vm_compute; exact I.
Defined.

(** A second session after a first one that ended, without [beforeunload],
    before its first backup: the timer is started and fires, and nothing is
    ever stored. *)
Lemma database_without_store_is_stuck_witness :
  let ops := [StartAutoBackup; Fire 1 (Ok (project "a.ts")); MarkUnsavedChanges] in
  let s0 := snd (initializeRecovery (new_ReliabilityService, first_world)) in
  let s := session ops s0 in
  database (snd s0) = NoObjectStore ∧
  database (snd s) = NoObjectStore ∧
  put_log (snd s) = put_log first_world ∧
  database (snd (snd (createBackup (project "b.ts") s))) = NoObjectStore ∧
  put_log (snd (snd (createBackup (project "b.ts") s))) = put_log first_world ∧
  fst (createBackup (project "b.ts") s)
  = match hd IdbOk (idb (snd s)) with
    | IdbOpenError => Throw StorageError
    | _ => Pending
    end ∧
  fst (triggerRecovery s)
  = match hd IdbOk (idb (snd s)) with
    | IdbOpenError => Ok JNull
    | _ => Pending
    end.
Proof.
  apply (database_without_store_is_stuck new_ReliabilityService first_world
           [StartAutoBackup; Fire 1 (Ok (project "a.ts")); MarkUnsavedChanges]
           (project "b.ts")).
  - vm_compute. reflexivity.
  - vm_compute. reflexivity.
  - vm_compute. discriminate.
Defined.

Example stuck_session :
  let s0 := snd (initializeRecovery (new_ReliabilityService, first_world)) in
  let s := session [StartAutoBackup; Fire 1 (Ok (project "a.ts"))] s0 in
  database first_world = NoDatabase ∧
  crashDetected (recoveryState (fst s0)) = true ∧
  backupTimer (fst s) = Some 1%positive ∧
  fst (fire 1 (Ok (project "a.ts")) (snd (startAutoBackup s0))) = Pending ∧
  fst (createBackup (project "b.ts") s) = Pending ∧
  getAll (backups (snd (snd (createBackup (project "b.ts") s)))) = [].
Proof. vm_compute. by repeat split. Qed.

Example two_sessions :
  crashDetected (recoveryState first_service) = false ∧
  crashDetected (recoveryState next_service) = true ∧
  length (getAll (backups next_world)) = 1%nat ∧
  String.length (generateChecksum "abc") = 64%nat ∧
  generateChecksum "abc" ≠ generateChecksum "abd".
Proof. vm_compute. by repeat split. Qed.

End ConcreteFurther.
